(** * zm: the cloud-init ISO driver [zm_geniso] (src/iso.c)

    [zm_geniso] is a driver: every byte of the image is produced by
    libisofs/libisoburn/libburn and every byte of the file is stored by the
    operating system.  The embedding therefore keeps the control flow of the
    C function as it is written and makes the outside world explicit:

    - an [Env] gives the answer of every external call (an oracle);
    - a [World] holds what the function can change or observe later: [errno],
      the files, the descriptor table and the chronological list of the
      external calls that were made;
    - the body runs in a small state monad with early [return];
    - the [while (1)] loop takes fuel, since a source that never reports
      end-of-stream keeps the function running for ever.

    What the libraries and the system do is taken from their documentation
    and kept to what the function can observe:

    - libisofs: a new image is empty and carries the given name as volume
      identifier; a node that was added is in the root directory; the
      profile of [iso_write_opts_new] fixes the ISO level;
    - libburn: a read of the source returns a negative status, or the
      number of bytes it stored at the start of the buffer, at most the
      size asked for, 0 at the end of the stream;
    - POSIX: a failed [open] or [write] returns -1 and sets [errno] to a
      positive code; [open] with [O_CREAT | O_TRUNC] leaves an empty file;
      [write] returns how many of the leading bytes it took; [errno] is
      never set to zero by a call, and any call may set it. *)

From Stdlib Require Import ZArith.
From Stdlib.Strings Require Import Byte.
From stdpp Require Import gmap strings list.

Local Open Scope Z_scope.

(** ** Objects of the libraries *)

(** A file node of the image tree: its name in the directory and the path of
    the file on disk its content comes from. *)
Record IsoNode := { node_name : string; node_path : string }.

(** What [zm_geniso] can influence of an [IsoImage]: the volume identifier and
    the entries of the root directory, oldest first. *)
Record IsoImage := { volume_id : string; root_children : list IsoNode }.

(** [IsoDir *]: the only directory the function ever holds is the root. *)
Inductive IsoDir := RootDir.

(** [IsoWriteOpts]: the profile the options were created with and the two
    switches the function sets. *)
Record IsoWriteOpts :=
  { wo_profile : Z; wo_rockridge : bool; wo_joliet : bool }.

(** libisofs, [iso_write_opts_new]: profile 0 (basic) selects ISO level 1,
    profile 1 (backup) level 3, profile 2 (distribution) level 2; other
    profiles are refused. *)
Definition iso_level (o : IsoWriteOpts) : option Z :=
  match wo_profile o with
  | 0 => Some 1
  | 1 => Some 3
  | 2 => Some 2
  | _ => None
  end.

(** [struct burn_source]: which of the two read entry points is set.  A
    version 0 source has [read]; a later one has [read == NULL] and
    [read_xt]. *)
Record burn_source := { bs_has_read : bool }.

Inductive open_flag := O_CREAT | O_TRUNC | O_WRONLY.

(** ** External calls *)

Inductive event :=
| Call_isoburn_initialize
| Call_iso_init
| Call_iso_image_new (name : string)
| Call_iso_image_set_volume_id (id : string)
| Call_iso_image_get_root
| Call_iso_tree_add_new_node (name path : string)
| Call_iso_image_unref
| Call_iso_write_opts_new (profile : Z)
| Call_iso_write_opts_set_rockridge (enable : Z)
| Call_iso_write_opts_set_joliet (enable : Z)
| Call_iso_write_opts_free
| Call_iso_image_create_burn_source (image : IsoImage) (opts : IsoWriteOpts)
| Call_burn_source_free
| Call_open (path : string) (flags : list open_flag) (mode : Z) (fd : Z)
| Call_read (xt : bool) (size : Z) (chunk : Z)
| Call_write (fd : Z) (count : Z) (written : Z)
| Call_close (fd : Z).

(** A call that returns a status and stores an object through an out
    parameter: the status, and whether the pointer was set (non-NULL). *)
Record ptr_result := { pr_ret : Z; pr_set : bool }.

(** [open]: -1 with [errno] set to a positive code, or a descriptor. *)
Inductive open_result := OpenFail (e : positive) | OpenOk (fd : N).

(** A read of the burn source: a negative status, or the bytes it delivers
    (none at end of stream). *)
Inductive read_result := ReadErr (e : positive) | ReadData (data : list byte).

(** [write]: -1 with [errno] set, or the number of bytes the system accepts. *)
Inductive write_result := WriteFail (e : positive) | Wrote (n : nat).

(** The answers of the outside world.  [env_errno i] is what the [i]-th
    external call does to [errno]: a library call may set it to a non-zero
    code whether or not it fails, and never sets it to zero. *)
Record Env := {
  env_errno : nat -> option positive;
  env_isoburn_initialize : Z;
  env_iso_init : Z;
  env_iso_image_new : ptr_result;
  env_iso_image_get_root : bool;
  env_iso_tree_add_new_node : string -> string -> Z;
  env_iso_write_opts_new : ptr_result;
  env_iso_image_create_burn_source : ptr_result;
  env_burn_has_read : bool;
  env_open : string -> open_result;
  env_burn_read : nat -> read_result;
  env_write : nat -> write_result;
  env_stack : nat -> byte
}.

Record World := {
  w_errno : Z;
  w_fs : gmap string (list byte);
  w_fds : gmap Z string;
  w_trace : list event
}.

(** ** The monad of the function body *)

Inductive flow (A : Type) :=
| Next (a : A)          (* fall through to the next statement *)
| Exit (code : Z)       (* [return code;] *)
| Spin.                 (* the loop used up its fuel *)
Arguments Next {A} a.
Arguments Exit {A} code.
Arguments Spin {A}.

Definition M (A : Type) : Type := World -> flow A * World.

Definition ret {A} (a : A) : M A := fun w => (Next a, w).
Definition exit {A} (code : Z) : M A := fun w => (Exit code, w).
Definition spin {A} : M A := fun w => (Spin, w).
Definition bind {A B} (c : M A) (k : A -> M B) : M B := fun w =>
  match c w with
  | (Next a, w') => k a w'
  | (Exit code, w') => (Exit code, w')
  | (Spin, w') => (Spin, w')
  end.

Notation "'let*' x ':=' c 'in' k" := (bind c (fun x => k))
  (at level 10, x pattern, c at level 100, k at level 200, only parsing).
Notation "c ';;;' k" := (bind c (fun _ => k))
  (at level 100, k at level 200, right associativity, only parsing).

Inductive outcome := Returned (code : Z) | OutOfFuel.

Definition function_body (c : M Z) (w : World) : outcome * World :=
  match c w with
  | (Next code, w') | (Exit code, w') => (Returned code, w')
  | (Spin, w') => (OutOfFuel, w')
  end.

Section Driver.

(** [EINVAL] of <errno.h>; the header is not part of the repository, and
    every error code of <errno.h> is a positive [int]. *)
Variable EINVAL : positive.
Variable env : Env.

(** *** Primitives *)

Definition modify (f : World -> World) : M unit := fun w => (Next tt, f w).

Definition get_errno : M Z := fun w => (Next (w_errno w), w).

Definition store_errno (e : Z) (w : World) : World :=
  {| w_errno := e; w_fs := w_fs w; w_fds := w_fds w; w_trace := w_trace w |}.

Definition set_errno (e : Z) : M unit := modify (store_errno e).

(** An external call: it is recorded, and may leave a code in [errno]. *)
Definition log_call (ev : event) (w : World) : World :=
  {| w_errno := match env_errno env (length (w_trace w)) with
                | Some e => Z.pos e
                | None => w_errno w
                end;
     w_fs := w_fs w; w_fds := w_fds w;
     w_trace := w_trace w ++ [ev] |}.

Definition ext (ev : event) : M unit := modify (log_call ev).

(** *** libisoburn, libisofs, libburn *)

(** [isoburn_initialize(msg, 0)]; the text left in [msg] is never read. *)
Definition isoburn_initialize : M Z :=
  ext Call_isoburn_initialize ;;; ret (env_isoburn_initialize env).

Definition iso_init : M Z :=
  ext Call_iso_init ;;; ret (env_iso_init env).

(** [name] becomes the volume identifier of the new, empty image. *)
Definition iso_image_new (name : string) : M (Z * option IsoImage) :=
  ext (Call_iso_image_new name) ;;;
  let r := env_iso_image_new env in
  ret (pr_ret r,
       if pr_set r
       then Some {| volume_id := name; root_children := [] |}
       else None).

Definition iso_image_set_volume_id (image : IsoImage) (id : string)
  : M IsoImage :=
  ext (Call_iso_image_set_volume_id id) ;;;
  ret {| volume_id := id; root_children := root_children image |}.

Definition iso_image_get_root (image : IsoImage) : M (option IsoDir) :=
  ext Call_iso_image_get_root ;;;
  ret (if env_iso_image_get_root env then Some RootDir else None).

(** On success the node is in the directory; on failure the tree is as it
    was. *)
Definition iso_tree_add_new_node (image : IsoImage) (parent : IsoDir)
    (name path : string) : M (Z * IsoImage) :=
  ext (Call_iso_tree_add_new_node name path) ;;;
  let rc := env_iso_tree_add_new_node env name path in
  ret (rc,
       if rc <? 0 then image
       else {| volume_id := volume_id image;
               root_children := root_children image ++
                 [{| node_name := name; node_path := path |}] |}).

Definition iso_image_unref (image : IsoImage) : M unit :=
  ext Call_iso_image_unref.

(** The new options carry the defaults of the profile: Rock Ridge in
    profiles 1 and 2, Joliet in profile 2. *)
Definition iso_write_opts_new (profile : Z) : M (Z * option IsoWriteOpts) :=
  ext (Call_iso_write_opts_new profile) ;;;
  let r := env_iso_write_opts_new env in
  ret (pr_ret r,
       if pr_set r
       then Some {| wo_profile := profile;
                    wo_rockridge := (profile =? 1) || (profile =? 2);
                    wo_joliet := profile =? 2 |}
       else None).

Definition iso_write_opts_set_rockridge (opts : IsoWriteOpts) (enable : Z)
  : M IsoWriteOpts :=
  ext (Call_iso_write_opts_set_rockridge enable) ;;;
  ret {| wo_profile := wo_profile opts;
         wo_rockridge := negb (enable =? 0);
         wo_joliet := wo_joliet opts |}.

Definition iso_write_opts_set_joliet (opts : IsoWriteOpts) (enable : Z)
  : M IsoWriteOpts :=
  ext (Call_iso_write_opts_set_joliet enable) ;;;
  ret {| wo_profile := wo_profile opts;
         wo_rockridge := wo_rockridge opts;
         wo_joliet := negb (enable =? 0) |}.

Definition iso_write_opts_free (opts : IsoWriteOpts) : M unit :=
  ext Call_iso_write_opts_free.

Definition iso_image_create_burn_source (image : IsoImage)
    (opts : IsoWriteOpts) : M (Z * option burn_source) :=
  ext (Call_iso_image_create_burn_source image opts) ;;;
  let r := env_iso_image_create_burn_source env in
  ret (pr_ret r,
       if pr_set r
       then Some {| bs_has_read := env_burn_has_read env |}
       else None).

Definition burn_source_free (src : burn_source) : M unit :=
  ext Call_burn_source_free.

(** The [k]-th read of the source, through [read] or [read_xt]: at most
    [size] bytes are stored at the start of the buffer and their number is
    returned; the rest of the buffer is left as it was. *)
Definition burn_source_read (xt : bool) (k : nat) (buffer : list byte)
    (size : Z) : M (Z * list byte) :=
  match env_burn_read env k with
  | ReadErr e =>
      ext (Call_read xt size (Z.neg e)) ;;; ret (Z.neg e, buffer)
  | ReadData data =>
      let got := take (Z.to_nat size) data in
      ext (Call_read xt size (Z.of_nat (length got))) ;;;
      ret (Z.of_nat (length got), got ++ drop (length got) buffer)
  end.

(** *** POSIX *)

(** The file at [path] exists and is empty, and [fd] refers to it. *)
Definition create_file (path : string) (fd : Z) (w : World) : World :=
  {| w_errno := w_errno w;
     w_fs := <[path := []]> (w_fs w);
     w_fds := <[fd := path]> (w_fds w);
     w_trace := w_trace w |}.

(** [data] goes to the end of the file [fd] refers to (the descriptor was
    opened on an emptied file and is written in sequence). *)
Definition append_file (fd : Z) (data : list byte) (w : World) : World :=
  {| w_errno := w_errno w;
     w_fs := match w_fds w !! fd with
             | Some path =>
                 <[path := default [] (w_fs w !! path) ++ data]> (w_fs w)
             | None => w_fs w
             end;
     w_fds := w_fds w;
     w_trace := w_trace w |}.

Definition release_fd (fd : Z) (w : World) : World :=
  {| w_errno := w_errno w; w_fs := w_fs w;
     w_fds := delete fd (w_fds w); w_trace := w_trace w |}.

(** [open(path, O_CREAT | O_TRUNC | O_WRONLY, mode)]. *)
Definition sys_open (path : string) (flags : list open_flag) (mode : Z)
  : M Z :=
  match env_open env path with
  | OpenFail e =>
      ext (Call_open path flags mode (-1)) ;;;
      set_errno (Z.pos e) ;;;
      ret (-1)
  | OpenOk fd =>
      ext (Call_open path flags mode (Z.of_N fd)) ;;;
      modify (create_file path (Z.of_N fd)) ;;;
      ret (Z.of_N fd)
  end.

(** The [k]-th [write(fd, buf, count)]: the system accepts at most [count]
    bytes from the start of [buf] and returns their number. *)
Definition sys_write (k : nat) (fd : Z) (buf : list byte) (count : Z)
  : M Z :=
  match env_write env k with
  | WriteFail e =>
      ext (Call_write fd count (-1)) ;;;
      set_errno (Z.pos e) ;;;
      ret (-1)
  | Wrote n =>
      let data := take (Nat.min n (Z.to_nat count)) buf in
      ext (Call_write fd count (Z.of_nat (length data))) ;;;
      modify (append_file fd data) ;;;
      ret (Z.of_nat (length data))
  end.

(** [close(fd)]; the function does not look at its status. *)
Definition sys_close (fd : Z) : M unit :=
  ext (Call_close fd) ;;; modify (release_fd fd).

(** *** iso.c *)

(** [unsigned char buffer[2048];] is not initialised. *)
Definition buffer_size : nat := 2048.
Definition fresh_buffer : list byte := map (env_stack env) (seq 0 buffer_size).

(** Lines 70-76, from iteration [k] on.  The result is [r]. *)
Fixpoint write_loop (fuel k : nat) (burn_src : burn_source) (fd : Z)
    (buffer : list byte) : M Z :=
  match fuel with
  | O => spin
  | S fuel' =>
      let* (chunk, buffer) :=
        (if bs_has_read burn_src
         then burn_source_read false k buffer (Z.of_nat buffer_size)
         else burn_source_read true k buffer (Z.of_nat buffer_size)) in
      if chunk <? 0 then ret (-1)
      else if chunk =? 0 then ret 0
      else
        let* w := sys_write k fd buffer chunk in
        if negb (w =? chunk) then ret (-1)
        else write_loop fuel' (S k) burn_src fd buffer
  end.

(** Lines 12-85.  [NULL] is [None]; 420 is 0644. *)
Definition zm_geniso (fuel : nat) (output user_data meta_data : option string)
  : World -> outcome * World :=
  function_body
  match output, user_data, meta_data with
  | Some output, Some user_data, Some meta_data =>
    (* 16-21 *)
    let* rc := isoburn_initialize in
    if rc <=? 0 then exit 126 else
    let* rc := iso_init in
    if rc <? 0 then exit 126 else
    (* 23-26 *)
    let* r := iso_image_new "cidata" in
    match r with
    | (_, None) => exit 126
    | (rc, Some image) =>
    if rc <? 0 then exit 126 else
    (* 28-34 *)
    let* image := iso_image_set_volume_id image "cidata" in
    let* root := iso_image_get_root image in
    match root with
    | None => iso_image_unref image ;;; exit 126
    | Some root =>
    (* 37-46 *)
    let* (rc, image) :=
      iso_tree_add_new_node image root "user-data" user_data in
    if rc <? 0 then iso_image_unref image ;;; exit 125 else
    let* (rc, image) :=
      iso_tree_add_new_node image root "meta-data" meta_data in
    if rc <? 0 then iso_image_unref image ;;; exit 125 else
    (* 48-51 *)
    let* r := iso_write_opts_new 2 in
    match r with
    | (_, None) => iso_image_unref image ;;; exit 126
    | (rc, Some opts) =>
    if rc <? 0 then iso_image_unref image ;;; exit 126 else
    let* opts := iso_write_opts_set_rockridge opts 1 in
    let* opts := iso_write_opts_set_joliet opts 1 in
    (* 53-58 *)
    let* r := iso_image_create_burn_source image opts in
    match r with
    | (_, None) =>
        iso_write_opts_free opts ;;; iso_image_unref image ;;; exit 126
    | (rc, Some burn_src) =>
    if rc <? 0
    then iso_write_opts_free opts ;;; iso_image_unref image ;;; exit 126
    else
    (* 60-66 *)
    let* fd := sys_open output [O_CREAT; O_TRUNC; O_WRONLY] 420 in
    if fd <? 0 then
      burn_source_free burn_src ;;;
      iso_write_opts_free opts ;;;
      iso_image_unref image ;;;
      let* e := get_errno in
      exit e
    else
    (* 68-76 *)
    let* r := write_loop fuel 0 burn_src fd fresh_buffer in
    (* 77-84 *)
    sys_close fd ;;;
    burn_source_free burn_src ;;;
    iso_write_opts_free opts ;;;
    iso_image_unref image ;;;
    if r <? 0 then exit 125 else
    ret 0
    end end end end
  (* 13 *)
  | _, _, _ => exit (Z.pos EINVAL)
  end.

(** ** Vocabulary of the properties *)

(** *** Set-up (lines 16-58) *)

(** The places where the set-up can fail, in program order. *)
Inductive setup_step :=
| StepIsoburnInitialize
| StepIsoInit
| StepImageNew
| StepGetRoot
| StepAddUserData
| StepAddMetaData
| StepWriteOptsNew
| StepCreateBurnSource.

Definition setup_steps : list setup_step :=
  [StepIsoburnInitialize; StepIsoInit; StepImageNew; StepGetRoot;
   StepAddUserData; StepAddMetaData; StepWriteOptsNew; StepCreateBurnSource].

Definition ptr_fails (r : ptr_result) : bool :=
  (pr_ret r <? 0) || negb (pr_set r).

Definition step_fails (user_data meta_data : string) (s : setup_step) : bool :=
  match s with
  | StepIsoburnInitialize => env_isoburn_initialize env <=? 0
  | StepIsoInit => env_iso_init env <? 0
  | StepImageNew => ptr_fails (env_iso_image_new env)
  | StepGetRoot => negb (env_iso_image_get_root env)
  | StepAddUserData =>
      env_iso_tree_add_new_node env "user-data" user_data <? 0
  | StepAddMetaData =>
      env_iso_tree_add_new_node env "meta-data" meta_data <? 0
  | StepWriteOptsNew => ptr_fails (env_iso_write_opts_new env)
  | StepCreateBurnSource => ptr_fails (env_iso_image_create_burn_source env)
  end.

(** The step at which the set-up stops, if any. *)
Definition first_failure (user_data meta_data : string) : option setup_step :=
  List.find (step_fails user_data meta_data) setup_steps.

(** The image and the options once the set-up is through. *)
Definition cidata_image (user_data meta_data : string) : IsoImage :=
  {| volume_id := "cidata";
     root_children :=
       [{| node_name := "user-data"; node_path := user_data |};
        {| node_name := "meta-data"; node_path := meta_data |}] |}.

Definition cidata_opts : IsoWriteOpts :=
  {| wo_profile := 2; wo_rockridge := true; wo_joliet := true |}.

(** The external calls of a set-up that is through. *)
Definition setup_calls (user_data meta_data : string) : list event :=
  [Call_isoburn_initialize; Call_iso_init; Call_iso_image_new "cidata";
   Call_iso_image_set_volume_id "cidata"; Call_iso_image_get_root;
   Call_iso_tree_add_new_node "user-data" user_data;
   Call_iso_tree_add_new_node "meta-data" meta_data;
   Call_iso_write_opts_new 2; Call_iso_write_opts_set_rockridge 1;
   Call_iso_write_opts_set_joliet 1;
   Call_iso_image_create_burn_source
     (cidata_image user_data meta_data) cidata_opts].

(** How many of them are made when the set-up stops at [s], and the calls
    that release what was acquired by then. *)
Definition calls_before (s : setup_step) : nat :=
  match s with
  | StepIsoburnInitialize => 1
  | StepIsoInit => 2
  | StepImageNew => 3
  | StepGetRoot => 5
  | StepAddUserData => 6
  | StepAddMetaData => 7
  | StepWriteOptsNew => 8
  | StepCreateBurnSource => 11
  end.

Definition cleanup_after (s : setup_step) : list event :=
  match s with
  | StepIsoburnInitialize | StepIsoInit | StepImageNew => []
  | StepGetRoot | StepAddUserData | StepAddMetaData | StepWriteOptsNew =>
      [Call_iso_image_unref]
  | StepCreateBurnSource => [Call_iso_write_opts_free; Call_iso_image_unref]
  end.

(** The value returned when the set-up stops at [s]. *)
Definition failure_code (s : setup_step) : Z :=
  match s with
  | StepAddUserData | StepAddMetaData => 125
  | _ => 126
  end.

Definition failed_setup_calls (user_data meta_data : string) (s : setup_step)
  : list event :=
  take (calls_before s) (setup_calls user_data meta_data) ++ cleanup_after s.

Definition open_call (output : string) (fd : Z) : event :=
  Call_open output [O_CREAT; O_TRUNC; O_WRONLY] 420 fd.

(** The calls that release the source, the options and the image. *)
Definition release_calls : list event :=
  [Call_burn_source_free; Call_iso_write_opts_free; Call_iso_image_unref].

Definition log_calls (evs : list event) (w : World) : World :=
  foldl (fun w ev => log_call ev w) w evs.

(** *** The write loop (lines 70-76) *)

(** What the [k]-th read returns and the bytes it delivers. *)
Definition delivered (k : nat) : list byte :=
  match env_burn_read env k with
  | ReadErr _ => []
  | ReadData data => take buffer_size data
  end.

Definition chunk_of (k : nat) : Z :=
  match env_burn_read env k with
  | ReadErr e => Z.neg e
  | ReadData _ => Z.of_nat (length (delivered k))
  end.

(** The bytes of the [k]-th chunk that the [k]-th write puts in the file. *)
Definition accepted (k : nat) : list byte :=
  match env_write env k with
  | WriteFail _ => []
  | Wrote n => take n (delivered k)
  end.

(** What the [k]-th write returns. *)
Definition written (k : nat) : Z :=
  match env_write env k with
  | WriteFail _ => -1
  | Wrote _ => Z.of_nat (length (accepted k))
  end.

(** Iteration [k] reads end-of-stream. *)
Definition at_end (k : nat) : bool := chunk_of k =? 0.

(** Iteration [k] reads a chunk and writes all of it: the loop goes on. *)
Definition copies (k : nat) : bool :=
  (0 <? chunk_of k) && (written k =? chunk_of k).

(** The source is read to its end at read [n], every chunk before it having
    been written in full. *)
Definition drained (n : nat) : bool :=
  forallb copies (seq 0 n) && at_end n.

(** The bytes of the first [n] chunks, in order. *)
Definition stream (n : nat) : list byte :=
  concat (map delivered (seq 0 n)).

(** The first iteration from [k] on, within [fuel] iterations, that does
    not go on. *)
Definition first_stop (fuel k : nat) : option nat :=
  List.find (fun j => negb (copies j)) (seq k fuel).

Definition read_call (xt : bool) (k : nat) : event :=
  Call_read xt (Z.of_nat buffer_size) (chunk_of k).

Definition write_call (fd : Z) (k : nat) : event :=
  Call_write fd (chunk_of k) (written k).

(** The world after the [k]-th write. *)
Definition write_world (k : nat) (fd : Z) (w : World) : World :=
  match env_write env k with
  | WriteFail e => store_errno (Z.pos e) (log_call (write_call fd k) w)
  | Wrote _ => append_file fd (accepted k) (log_call (write_call fd k) w)
  end.

(** The calls and the file bytes of [fuel] iterations from [k] on. *)
Fixpoint loop_calls (xt : bool) (fd : Z) (fuel k : nat) : list event :=
  match fuel with
  | O => []
  | S fuel' =>
      read_call xt k ::
      (if 0 <? chunk_of k
       then write_call fd k ::
            (if copies k then loop_calls xt fd fuel' (S k) else [])
       else [])
  end.

Fixpoint loop_bytes (fuel k : nat) : list byte :=
  match fuel with
  | O => []
  | S fuel' =>
      if 0 <? chunk_of k
      then accepted k ++ (if copies k then loop_bytes fuel' (S k) else [])
      else []
  end.

(** What the function does with the result of the loop (lines 77-84). *)
Definition finish (fd : Z) (r : flow Z * World) : outcome * World :=
  match r with
  | (Next r, w) =>
      (Returned (if r <? 0 then 125 else 0),
       log_calls release_calls (release_fd fd (log_call (Call_close fd) w)))
  | (Exit code, w) => (Returned code, w)
  | (Spin, w) => (OutOfFuel, w)
  end.

(** *** Events *)

Definition is_io (ev : event) : bool :=
  match ev with
  | Call_read _ _ _ | Call_write _ _ _ => true
  | _ => false
  end.

(** A read that fails, or a write that takes fewer bytes than requested. *)
Definition io_failure (ev : event) : bool :=
  match ev with
  | Call_read _ _ chunk => chunk <? 0
  | Call_write _ count written => written <? count
  | _ => false
  end.

Definition is_open (ev : event) : bool :=
  match ev with Call_open _ _ _ _ => true | _ => false end.

Definition is_close (ev : event) : bool :=
  match ev with Call_close _ => true | _ => false end.

(** The external calls made by one call of [zm_geniso] from world [w]. *)
Definition zm_calls (fuel : nat) (output user_data meta_data : option string)
    (w : World) : list event :=
  drop (length (w_trace w))
       (w_trace (snd (zm_geniso fuel output user_data meta_data w))).

(** *** Acquired objects and their release *)

(** The position of a step in program order. *)
Definition step_index (s : setup_step) : nat :=
  match s with
  | StepIsoburnInitialize => 0
  | StepIsoInit => 1
  | StepImageNew => 2
  | StepGetRoot => 3
  | StepAddUserData => 4
  | StepAddMetaData => 5
  | StepWriteOptsNew => 6
  | StepCreateBurnSource => 7
  end.

(** The set-up gets past step [s]. *)
Definition passes (user_data meta_data : string) (s : setup_step) : bool :=
  match first_failure user_data meta_data with
  | None => true
  | Some s' => (step_index s <? step_index s')%nat
  end.

Definition is_write (ev : event) : bool :=
  match ev with Call_write _ _ _ => true | _ => false end.

Definition is_release (ev : event) : bool :=
  match ev with
  | Call_burn_source_free | Call_iso_write_opts_free | Call_iso_image_unref =>
      true
  | _ => false
  end.

(** The releasing calls that are due when the function returns: one for
    each of the burn source, the write options and the image that the
    set-up obtained, the youngest object first. *)
Definition due_releases (user_data meta_data : string) : list event :=
  (if passes user_data meta_data StepCreateBurnSource
   then [Call_burn_source_free] else []) ++
  (if passes user_data meta_data StepWriteOptsNew
   then [Call_iso_write_opts_free] else []) ++
  (if passes user_data meta_data StepImageNew
   then [Call_iso_image_unref] else []).

End Driver.

Arguments log_call : simpl never.
Arguments store_errno : simpl never.
Arguments create_file : simpl never.
Arguments append_file : simpl never.
Arguments release_fd : simpl never.

(** ** Sample worlds *)

Definition ptr_ok : ptr_result := {| pr_ret := 1; pr_set := true |}.

(** An environment in which the library calls succeed, except as the
    arguments say: the status of [isoburn_initialize], the status of adding
    "user-data", the answer of [open], the effect of each call on [errno],
    and the answers of the reads and writes.  After the listed reads the
    source is at its end. *)
Definition sample_env (init add_user : Z) (opn : open_result)
    (errno : nat -> option positive) (reads : list read_result)
    (writes : nat -> write_result) : Env :=
  {| env_errno := errno;
     env_isoburn_initialize := init;
     env_iso_init := 1;
     env_iso_image_new := ptr_ok;
     env_iso_image_get_root := true;
     env_iso_tree_add_new_node := fun name _ =>
       if String.eqb name "user-data" then add_user else 1;
     env_iso_write_opts_new := ptr_ok;
     env_iso_image_create_burn_source := ptr_ok;
     env_burn_has_read := false;
     env_open := fun _ => opn;
     env_burn_read := fun k => nth k reads (ReadData []);
     env_write := writes;
     env_stack := fun _ => x00 |}.

Definition two_chunks : list read_result :=
  [ReadData [x43; x44; x30]; ReadData [x30; x31]].

(** Everything succeeds; the image is five bytes long. *)
Definition env_ok : Env :=
  sample_env 1 1 (OpenOk 3) (fun _ => None) two_chunks
    (fun _ => Wrote 2048).

(** The second read of the source fails. *)
Definition env_read_fails : Env :=
  sample_env 1 1 (OpenOk 3) (fun _ => None)
    [ReadData [x43; x44; x30]; ReadErr 1] (fun _ => Wrote 2048).

(** The second write takes one byte of the two that are offered. *)
Definition env_short_write : Env :=
  sample_env 1 1 (OpenOk 3) (fun _ => None) two_chunks
    (fun k => if Nat.eqb k 1 then Wrote 1 else Wrote 2048).

(** A source that delivers one byte at every read, without end. *)
Definition env_endless : Env :=
  {| env_errno := fun _ => None;
     env_isoburn_initialize := 1;
     env_iso_init := 1;
     env_iso_image_new := ptr_ok;
     env_iso_image_get_root := true;
     env_iso_tree_add_new_node := fun _ _ => 1;
     env_iso_write_opts_new := ptr_ok;
     env_iso_image_create_burn_source := ptr_ok;
     env_burn_has_read := true;
     env_open := fun _ => OpenOk 3;
     env_burn_read := fun _ => ReadData [x00];
     env_write := fun _ => Wrote 1;
     env_stack := fun _ => x00 |}.

(** [isoburn_initialize] fails. *)
Definition env_init_fails : Env :=
  sample_env 0 1 (OpenOk 3) (fun _ => None) two_chunks
    (fun _ => Wrote 2048).

(** The file for "user-data" cannot be added to the tree. *)
Definition env_add_fails : Env :=
  sample_env 1 (-1) (OpenOk 3) (fun _ => None) two_chunks
    (fun _ => Wrote 2048).

(** [open] fails with code 2 (ENOENT on Linux), and no later call touches
    [errno]. *)
Definition env_open_fails : Env :=
  sample_env 1 1 (OpenFail 2) (fun _ => None) two_chunks
    (fun _ => Wrote 2048).

(** [open] fails with code 2, and the thirteenth external call, which is
    [burn_source_free], leaves code 9 (EBADF on Linux) in [errno]. *)
Definition env_open_fails_errno_changes : Env :=
  sample_env 1 1 (OpenFail 2)
    (fun i => if Nat.eqb i 12 then Some 9%positive else None) two_chunks
    (fun _ => Wrote 2048).

Definition empty_world : World :=
  {| w_errno := 0; w_fs := ∅; w_fds := ∅; w_trace := [] |}.

(** [env] with another content of the stack under [buffer]. *)
Definition with_stack (env : Env) (stack : nat -> byte) : Env :=
  {| env_errno := env_errno env;
     env_isoburn_initialize := env_isoburn_initialize env;
     env_iso_init := env_iso_init env;
     env_iso_image_new := env_iso_image_new env;
     env_iso_image_get_root := env_iso_image_get_root env;
     env_iso_tree_add_new_node := env_iso_tree_add_new_node env;
     env_iso_write_opts_new := env_iso_write_opts_new env;
     env_iso_image_create_burn_source := env_iso_image_create_burn_source env;
     env_burn_has_read := env_burn_has_read env;
     env_open := env_open env;
     env_burn_read := env_burn_read env;
     env_write := env_write env;
     env_stack := stack |}.

(** The source is empty: its first read reports the end of the stream. *)
Definition env_empty_source : Env :=
  sample_env 1 1 (OpenOk 3) (fun _ => None) [] (fun _ => Wrote 2048).

(** The burn source cannot be created. *)
Definition env_no_source : Env :=
  {| env_errno := fun _ => None;
     env_isoburn_initialize := 1;
     env_iso_init := 1;
     env_iso_image_new := ptr_ok;
     env_iso_image_get_root := true;
     env_iso_tree_add_new_node := fun _ _ => 1;
     env_iso_write_opts_new := ptr_ok;
     env_iso_image_create_burn_source := {| pr_ret := -1; pr_set := false |};
     env_burn_has_read := true;
     env_open := fun _ => OpenOk 3;
     env_burn_read := fun _ => ReadData [];
     env_write := fun _ => Wrote 2048;
     env_stack := fun _ => x00 |}.

(** A world in which the output path holds an older file. *)
Definition used_world : World :=
  {| w_errno := 0; w_fs := {[ "out.iso" := [x6f; x6c; x64] ]};
     w_fds := ∅; w_trace := [] |}.

(** * Proofs *)

Section Correctness.

Variable EINVAL : positive.
Variable env : Env.

(** ** World transformers *)

Lemma trace_log_call ev w : w_trace (log_call env ev w) = w_trace w ++ [ev].
Proof. reflexivity. Qed.
Lemma fs_log_call ev w : w_fs (log_call env ev w) = w_fs w.
Proof. reflexivity. Qed.
Lemma fds_log_call ev w : w_fds (log_call env ev w) = w_fds w.
Proof. reflexivity. Qed.

Lemma trace_store_errno e w : w_trace (store_errno e w) = w_trace w.
Proof. reflexivity. Qed.
Lemma fs_store_errno e w : w_fs (store_errno e w) = w_fs w.
Proof. reflexivity. Qed.
Lemma fds_store_errno e w : w_fds (store_errno e w) = w_fds w.
Proof. reflexivity. Qed.
Lemma errno_store_errno e w : w_errno (store_errno e w) = e.
Proof. reflexivity. Qed.

Lemma trace_create_file p fd w : w_trace (create_file p fd w) = w_trace w.
Proof. reflexivity. Qed.
Lemma fs_create_file p fd w : w_fs (create_file p fd w) = <[p := []]> (w_fs w).
Proof. reflexivity. Qed.
Lemma fds_create_file p fd w :
  w_fds (create_file p fd w) = <[fd := p]> (w_fds w).
Proof. reflexivity. Qed.

Lemma trace_append_file fd d w : w_trace (append_file fd d w) = w_trace w.
Proof. reflexivity. Qed.
Lemma fds_append_file fd d w : w_fds (append_file fd d w) = w_fds w.
Proof. reflexivity. Qed.
Lemma fs_append_file fd d w p old :
  w_fds w !! fd = Some p -> w_fs w !! p = Some old ->
  w_fs (append_file fd d w) = <[p := old ++ d]> (w_fs w).
Proof.
  intros Hfd Hp. unfold append_file. simpl. rewrite Hfd, Hp. reflexivity.
Qed.

Lemma trace_release_fd fd w : w_trace (release_fd fd w) = w_trace w.
Proof. reflexivity. Qed.
Lemma fs_release_fd fd w : w_fs (release_fd fd w) = w_fs w.
Proof. reflexivity. Qed.
Lemma fds_release_fd fd w : w_fds (release_fd fd w) = delete fd (w_fds w).
Proof. reflexivity. Qed.

Lemma log_calls_app evs1 evs2 w :
  log_calls env (evs1 ++ evs2) w = log_calls env evs2 (log_calls env evs1 w).
Proof. unfold log_calls. apply foldl_app. Qed.

Lemma trace_log_calls evs w : w_trace (log_calls env evs w) = w_trace w ++ evs.
Proof.
  revert w. induction evs as [|ev evs IH]; intros w; simpl.
  - now rewrite app_nil_r.
  - unfold log_calls in *. simpl. rewrite IH, trace_log_call.
    now rewrite <- app_assoc.
Qed.

Lemma fs_log_calls evs w : w_fs (log_calls env evs w) = w_fs w.
Proof.
  revert w. induction evs as [|ev evs IH]; intros w; [reflexivity|].
  unfold log_calls in *. simpl. now rewrite IH.
Qed.

Lemma fds_log_calls evs w : w_fds (log_calls env evs w) = w_fds w.
Proof.
  revert w. induction evs as [|ev evs IH]; intros w; [reflexivity|].
  unfold log_calls in *. simpl. now rewrite IH.
Qed.

(** ** One iteration of the loop *)

Lemma chunk_of_data k data :
  env_burn_read env k = ReadData data ->
  chunk_of env k = Z.of_nat (length (take buffer_size data)) /\
  delivered env k = take buffer_size data.
Proof. intros H. unfold chunk_of, delivered. rewrite H. auto. Qed.

Lemma write_loop_step fuel k bs fd buf w :
  write_loop env (S fuel) k bs fd buf w =
    let w1 := log_call env (read_call env (negb (bs_has_read bs)) k) w in
    if chunk_of env k <? 0 then (Next (-1), w1)
    else if chunk_of env k =? 0 then (Next 0, w1)
    else if copies env k
         then write_loop env fuel (S k) bs fd
                (delivered env k ++ drop (length (delivered env k)) buf)
                (write_world env k fd w1)
         else (Next (-1), write_world env k fd w1).
Proof.
  cbn [write_loop].
  unfold read_call, copies, write_world, write_call, written, accepted.
  unfold burn_source_read, sys_write, bind, ext, set_errno, modify, ret.
  destruct (env_burn_read env k) as [e|data] eqn:Hr.
  - unfold chunk_of. rewrite Hr. destruct (bs_has_read bs); reflexivity.
  - destruct (chunk_of_data _ _ Hr) as [Hc Hd]. rewrite Hc, Hd.
    rewrite Nat2Z.id.
    set (got := take buffer_size data).
    assert (Hn : (Z.of_nat (length got) <? 0) = false) by (apply Z.ltb_ge; lia).
    assert (Htake : forall n,
      take (n `min` length got) (got ++ drop (length got) buf) = take n got).
    { intros n. rewrite take_app_le by lia.
      destruct (decide (n <= length got)%nat);
        [rewrite Nat.min_l by lia; reflexivity|].
      rewrite Nat.min_r by lia. rewrite !take_ge by lia. reflexivity. }
    destruct (bs_has_read bs); cbn [negb]; cbv beta iota; rewrite Hn.
    all: destruct (Z.of_nat (length got) =? 0) eqn:Hz; [reflexivity|].
    all: apply Z.eqb_neq in Hz.
    all: assert (Hp : (0 <? Z.of_nat (length got)) = true)
      by (apply Z.ltb_lt; lia).
    all: rewrite Hp; cbn [andb].
    all: destruct (env_write env k) as [e|n] eqn:Hw; cbv beta iota.
    all: try (assert (Hm : (-1 =? Z.of_nat (length got)) = false)
                by (apply Z.eqb_neq; lia); rewrite Hm; reflexivity).
    all: rewrite ?Nat2Z.id, Htake.
    all: destruct (Z.of_nat (length (take n got)) =? Z.of_nat (length got));
      reflexivity.
Qed.


(** ** The loop as a whole *)

Lemma fds_write_world k fd w : w_fds (write_world env k fd w) = w_fds w.
Proof. unfold write_world. destruct (env_write env k); reflexivity. Qed.

Lemma trace_write_world k fd w :
  w_trace (write_world env k fd w) = w_trace w ++ [write_call env fd k].
Proof. unfold write_world. destruct (env_write env k); reflexivity. Qed.

Lemma fs_write_world k fd w p old :
  w_fds w !! fd = Some p -> w_fs w !! p = Some old ->
  w_fs (write_world env k fd w) = <[p := old ++ accepted env k]> (w_fs w).
Proof.
  intros Hfd Hp. unfold write_world, accepted.
  destruct (env_write env k).
  - rewrite fs_store_errno, fs_log_call, app_nil_r.
    symmetry. now apply insert_id.
  - rewrite (fs_append_file _ _ _ p old);
      [reflexivity | now rewrite fds_log_call | now rewrite fs_log_call].
Qed.

Lemma chunk_sign k :
  (chunk_of env k <? 0) = false -> (chunk_of env k =? 0) = false ->
  (0 <? chunk_of env k) = true.
Proof.
  intros H1 H2. apply Z.ltb_lt. apply Z.ltb_ge in H1. apply Z.eqb_neq in H2.
  lia.
Qed.

Lemma copies_chunk k : copies env k = true -> (0 <? chunk_of env k) = true.
Proof. unfold copies. intros H. now apply andb_true_iff in H. Qed.

Lemma loop_fds fuel k bs fd buf w :
  w_fds (snd (write_loop env fuel k bs fd buf w)) = w_fds w.
Proof.
  revert k buf w. induction fuel as [|fuel IH]; intros k buf w; [reflexivity|].
  rewrite write_loop_step. cbv zeta.
  destruct (chunk_of env k <? 0); [reflexivity|].
  destruct (chunk_of env k =? 0); [reflexivity|].
  destruct (copies env k); [rewrite IH|]; cbn [snd];
    now rewrite fds_write_world.
Qed.

Lemma loop_trace fuel k bs fd buf w :
  w_trace (snd (write_loop env fuel k bs fd buf w)) =
  w_trace w ++ loop_calls env (negb (bs_has_read bs)) fd fuel k.
Proof.
  revert k buf w. induction fuel as [|fuel IH]; intros k buf w.
  - cbn. now rewrite app_nil_r.
  - rewrite write_loop_step. cbv zeta. cbn [loop_calls].
    destruct (chunk_of env k <? 0) eqn:Hneg.
    { assert ((0 <? chunk_of env k) = false) as ->; [|reflexivity].
      apply Z.ltb_ge. apply Z.ltb_lt in Hneg. lia. }
    destruct (chunk_of env k =? 0) eqn:Hz.
    { assert ((0 <? chunk_of env k) = false) as ->; [|reflexivity].
      apply Z.ltb_ge. apply Z.eqb_eq in Hz. lia. }
    rewrite (chunk_sign _ Hneg Hz).
    destruct (copies env k); [rewrite IH|]; cbn [snd];
      rewrite trace_write_world, trace_log_call, <- !app_assoc; reflexivity.
Qed.

Lemma loop_fs fuel k bs fd buf w p old :
  w_fds w !! fd = Some p -> w_fs w !! p = Some old ->
  w_fs (snd (write_loop env fuel k bs fd buf w)) =
  <[p := old ++ loop_bytes env fuel k]> (w_fs w).
Proof.
  revert k buf w old. induction fuel as [|fuel IH]; intros k buf w old Hfd Hp.
  - cbn. rewrite app_nil_r. symmetry. now apply insert_id.
  - rewrite write_loop_step. cbv zeta. cbn [loop_bytes].
    destruct (chunk_of env k <? 0) eqn:Hneg.
    { assert ((0 <? chunk_of env k) = false) as ->.
      { apply Z.ltb_ge. apply Z.ltb_lt in Hneg. lia. }
      cbn [snd]. rewrite app_nil_r, fs_log_call. symmetry.
      now apply insert_id. }
    destruct (chunk_of env k =? 0) eqn:Hz.
    { assert ((0 <? chunk_of env k) = false) as ->.
      { apply Z.ltb_ge. apply Z.eqb_eq in Hz. lia. }
      cbn [snd]. rewrite app_nil_r, fs_log_call. symmetry.
      now apply insert_id. }
    rewrite (chunk_sign _ Hneg Hz).
    set (w1 := log_call env _ w).
    assert (Hfs : w_fs (write_world env k fd w1) =
                  <[p := old ++ accepted env k]> (w_fs w))
      by (rewrite (fs_write_world _ _ _ p old); subst w1;
          [now rewrite fs_log_call | now rewrite fds_log_call
          | now rewrite fs_log_call]).
    destruct (copies env k).
    + rewrite (IH _ _ _ (old ++ accepted env k)).
      * rewrite Hfs, insert_insert_eq, <- app_assoc. reflexivity.
      * now rewrite fds_write_world.
      * rewrite Hfs. apply lookup_insert_eq.
    + cbn [snd]. now rewrite Hfs, app_nil_r.
Qed.

(** The result of the loop: it spins while chunks are copied, and stops
    with 0 at end of stream and with -1 at a failure. *)
Lemma loop_flow fuel k bs fd buf w :
  fst (write_loop env fuel k bs fd buf w) =
  match first_stop env fuel k with
  | None => Spin
  | Some j => Next (if at_end env j then 0 else -1)
  end.
Proof.
  revert k buf w. induction fuel as [|fuel IH]; intros k buf w; [reflexivity|].
  rewrite write_loop_step. cbv zeta.
  unfold first_stop. cbn [seq List.find].
  destruct (chunk_of env k <? 0) eqn:Hneg.
  { assert (copies env k = false) as ->.
    { unfold copies. apply andb_false_iff. left.
      apply Z.ltb_ge. apply Z.ltb_lt in Hneg. lia. }
    cbn. unfold at_end.
    assert ((chunk_of env k =? 0) = false) as ->; [|reflexivity].
    apply Z.eqb_neq. apply Z.ltb_lt in Hneg. lia. }
  destruct (chunk_of env k =? 0) eqn:Hz.
  { assert (copies env k = false) as ->.
    { unfold copies. apply andb_false_iff. left.
      apply Z.ltb_ge. apply Z.eqb_eq in Hz. lia. }
    cbn. unfold at_end. now rewrite Hz. }
  destruct (copies env k) eqn:Hc; cbn [negb].
  - apply IH.
  - cbn [fst]. unfold at_end. now rewrite Hz.
Qed.


(** ** The paths through [zm_geniso] *)

Ltac run_setup :=
  unfold zm_geniso, function_body, bind, isoburn_initialize, iso_init,
    iso_image_new, iso_image_set_volume_id, iso_image_get_root,
    iso_tree_add_new_node, iso_image_unref, iso_write_opts_new,
    iso_write_opts_set_rockridge, iso_write_opts_set_joliet,
    iso_write_opts_free, iso_image_create_burn_source, burn_source_free,
    sys_open, sys_close, get_errno, set_errno, ext, modify, ret, exit, bind;
  cbv beta iota.

Lemma zm_geniso_null fuel o u m w :
  o = None \/ u = None \/ m = None ->
  zm_geniso EINVAL env fuel o u m w = (Returned (Z.pos EINVAL), w).
Proof.
  intros H. destruct o, u, m; try reflexivity.
  destruct H as [H|[H|H]]; discriminate.
Qed.

Lemma zm_geniso_setup_fails fuel o u m w s :
  first_failure env u m = Some s ->
  zm_geniso EINVAL env fuel (Some o) (Some u) (Some m) w =
    (Returned (failure_code s),
     log_calls env (failed_setup_calls u m s) w).
Proof.
  unfold first_failure, setup_steps. cbn [List.find step_fails].
  unfold ptr_fails. run_setup.
  destruct (env_isoburn_initialize env <=? 0); cbv beta iota.
  { intros [= <-]. reflexivity. }
  destruct (env_iso_init env <? 0); cbv beta iota.
  { intros [= <-]. reflexivity. }
  destruct (env_iso_image_new env) as [rc1 [|]]; cbn [pr_ret pr_set];
    cbv beta iota.
  2:{ rewrite orb_true_r. intros [= <-]. reflexivity. }
  destruct (rc1 <? 0); cbv beta iota.
  { intros [= <-]. reflexivity. }
  cbn [orb negb].
  destruct (env_iso_image_get_root env); cbn [negb]; cbv beta iota.
  2:{ intros [= <-]. reflexivity. }
  destruct (env_iso_tree_add_new_node env "user-data" u <? 0) eqn:Hu;
    cbv beta iota.
  { intros [= <-]. reflexivity. }
  destruct (env_iso_tree_add_new_node env "meta-data" m <? 0) eqn:Hm;
    cbv beta iota.
  { intros [= <-]. reflexivity. }
  destruct (env_iso_write_opts_new env) as [rc2 [|]]; cbn [pr_ret pr_set];
    cbv beta iota.
  2:{ rewrite orb_true_r. intros [= <-]. reflexivity. }
  destruct (rc2 <? 0); cbv beta iota.
  { intros [= <-]. reflexivity. }
  cbn [orb negb].
  destruct (env_iso_image_create_burn_source env) as [rc3 [|]];
    cbn [pr_ret pr_set]; cbv beta iota.
  2:{ rewrite orb_true_r. intros [= <-]. reflexivity. }
  destruct (rc3 <? 0); cbv beta iota.
  { intros [= <-]. reflexivity. }
  discriminate.
Qed.


Lemma first_failure_none u m :
  first_failure env u m = None ->
  (env_isoburn_initialize env <=? 0) = false /\
  (env_iso_init env <? 0) = false /\
  ptr_fails (env_iso_image_new env) = false /\
  env_iso_image_get_root env = true /\
  (env_iso_tree_add_new_node env "user-data" u <? 0) = false /\
  (env_iso_tree_add_new_node env "meta-data" m <? 0) = false /\
  ptr_fails (env_iso_write_opts_new env) = false /\
  ptr_fails (env_iso_image_create_burn_source env) = false.
Proof.
  unfold first_failure, setup_steps. cbn [List.find step_fails].
  repeat match goal with
         | |- context [if ?b then Some _ else _] =>
             destruct b eqn:?; try discriminate
         end.
  intros _. repeat split; try assumption. now apply negb_false_iff.
Qed.

Lemma ptr_fails_false r :
  ptr_fails r = false -> pr_set r = true /\ (pr_ret r <? 0) = false.
Proof.
  unfold ptr_fails.
  destruct (pr_set r), (pr_ret r <? 0); cbn; auto; discriminate.
Qed.

Ltac setup_through H :=
  destruct (first_failure_none _ _ H)
    as (H1 & H2 & [H3 H3']%ptr_fails_false & H4 & H5 & H6
        & [H7 H7']%ptr_fails_false & [H8 H8']%ptr_fails_false);
  run_setup;
  rewrite ?H1, ?H2, ?H3, ?H3', ?H4, ?H5, ?H6, ?H7, ?H7', ?H8, ?H8';
  cbv beta iota.

Lemma zm_geniso_open_fails fuel o u m w e :
  first_failure env u m = None ->
  env_open env o = OpenFail e ->
  zm_geniso EINVAL env fuel (Some o) (Some u) (Some m) w =
    let w' :=
      log_calls env release_calls
        (store_errno (Z.pos e)
           (log_calls env (setup_calls u m ++ [open_call o (-1)]) w)) in
    (Returned (w_errno w'), w').
Proof.
  intros Hs Ho. setup_through Hs. rewrite Ho. reflexivity.
Qed.

Lemma zm_geniso_open_ok fuel o u m w fd :
  first_failure env u m = None ->
  env_open env o = OpenOk fd ->
  zm_geniso EINVAL env fuel (Some o) (Some u) (Some m) w =
    finish env (Z.of_N fd)
      (write_loop env fuel 0 {| bs_has_read := env_burn_has_read env |}
         (Z.of_N fd) (fresh_buffer env)
         (create_file o (Z.of_N fd)
            (log_calls env (setup_calls u m ++ [open_call o (Z.of_N fd)]) w))).
Proof.
  intros Hs Ho. setup_through Hs. rewrite Ho. cbv beta iota.
  assert (Hfd : (Z.of_N fd <? 0) = false) by (apply Z.ltb_ge; lia).
  rewrite Hfd.
  match goal with
  | |- context [write_loop ?e ?f ?k ?b ?d ?buf ?w0] =>
      change (write_loop e f k b d buf w0)
        with (write_loop env fuel 0 {| bs_has_read := env_burn_has_read env |}
                (Z.of_N fd) (fresh_buffer env)
                (create_file o (Z.of_N fd)
                   (log_calls env
                      (setup_calls u m ++ [open_call o (Z.of_N fd)]) w)));
      destruct (write_loop env fuel 0 {| bs_has_read := env_burn_has_read env |}
                (Z.of_N fd) (fresh_buffer env)
                (create_file o (Z.of_N fd)
                   (log_calls env
                      (setup_calls u m ++ [open_call o (Z.of_N fd)]) w)))
        as [[r| |] w']
  end; cbn [finish]; try reflexivity.
  destruct (r <? 0); reflexivity.
Qed.

(** ** Summary of a call: result, calls, files *)

Lemma zm_result fuel o u m w :
  fst (zm_geniso EINVAL env fuel (Some o) (Some u) (Some m) w) =
  match first_failure env u m with
  | Some s => Returned (failure_code s)
  | None =>
      match env_open env o with
      | OpenFail e =>
          Returned
            (w_errno
               (log_calls env release_calls
                  (store_errno (Z.pos e)
                     (log_calls env (setup_calls u m ++ [open_call o (-1)])
                        w))))
      | OpenOk fd =>
          match first_stop env fuel 0 with
          | None => OutOfFuel
          | Some j => Returned (if at_end env j then 0 else 125)
          end
      end
  end.
Proof.
  destruct (first_failure env u m) as [s|] eqn:Hs.
  { now rewrite (zm_geniso_setup_fails _ _ _ _ _ _ Hs). }
  destruct (env_open env o) as [e|fd] eqn:Ho.
  { now rewrite (zm_geniso_open_fails _ _ _ _ _ _ Hs Ho). }
  rewrite (zm_geniso_open_ok _ _ _ _ _ _ Hs Ho).
  match goal with |- context [write_loop ?a ?b ?c ?d ?e ?f ?g] =>
    pose proof (loop_flow b c d e f g) as Hf;
    destruct (write_loop a b c d e f g) as [r w'] end.
  cbn [fst] in Hf. subst r.
  destruct (first_stop env fuel 0) as [j|]; cbn [finish fst]; [|reflexivity].
  destruct (at_end env j); reflexivity.
Qed.

Lemma zm_trace fuel o u m w :
  w_trace (snd (zm_geniso EINVAL env fuel (Some o) (Some u) (Some m) w)) =
  w_trace w ++
  match first_failure env u m with
  | Some s => failed_setup_calls u m s
  | None =>
      setup_calls u m ++
      match env_open env o with
      | OpenFail e => open_call o (-1) :: release_calls
      | OpenOk fd =>
          open_call o (Z.of_N fd) ::
          loop_calls env (negb (env_burn_has_read env)) (Z.of_N fd) fuel 0 ++
          match first_stop env fuel 0 with
          | None => []
          | Some _ => Call_close (Z.of_N fd) :: release_calls
          end
      end
  end.
Proof.
  destruct (first_failure env u m) as [s|] eqn:Hs.
  { rewrite (zm_geniso_setup_fails _ _ _ _ _ _ Hs). cbn [snd].
    apply trace_log_calls. }
  destruct (env_open env o) as [e|fd] eqn:Ho.
  { rewrite (zm_geniso_open_fails _ _ _ _ _ _ Hs Ho). cbv zeta. cbn [snd].
    rewrite trace_log_calls, trace_store_errno, trace_log_calls.
    now rewrite <- !app_assoc. }
  rewrite (zm_geniso_open_ok _ _ _ _ _ _ Hs Ho).
  match goal with |- context [write_loop ?a ?b ?c ?d ?e ?f ?g] =>
    pose proof (loop_flow b c d e f g) as Hf;
    pose proof (loop_trace b c d e f g) as Ht;
    destruct (write_loop a b c d e f g) as [r w'] end.
  cbn [fst snd bs_has_read] in Hf, Ht. subst r.
  rewrite trace_create_file, trace_log_calls in Ht.
  destruct (first_stop env fuel 0) as [j|]; cbn [finish snd].
  - rewrite trace_log_calls, trace_release_fd, trace_log_call, Ht.
    rewrite <- !app_assoc. reflexivity.
  - rewrite Ht, <- !app_assoc, app_nil_r. reflexivity.
Qed.

Lemma zm_calls_eq fuel o u m w :
  zm_calls EINVAL env fuel (Some o) (Some u) (Some m) w =
  match first_failure env u m with
  | Some s => failed_setup_calls u m s
  | None =>
      setup_calls u m ++
      match env_open env o with
      | OpenFail e => open_call o (-1) :: release_calls
      | OpenOk fd =>
          open_call o (Z.of_N fd) ::
          loop_calls env (negb (env_burn_has_read env)) (Z.of_N fd) fuel 0 ++
          match first_stop env fuel 0 with
          | None => []
          | Some _ => Call_close (Z.of_N fd) :: release_calls
          end
      end
  end.
Proof. unfold zm_calls. rewrite zm_trace. apply drop_app_length. Qed.

Lemma zm_fs_open_ok fuel o u m w fd :
  first_failure env u m = None -> env_open env o = OpenOk fd ->
  w_fs (snd (zm_geniso EINVAL env fuel (Some o) (Some u) (Some m) w)) =
  <[o := loop_bytes env fuel 0]> (w_fs w).
Proof.
  intros Hs Ho. rewrite (zm_geniso_open_ok _ _ _ _ _ _ Hs Ho).
  match goal with |- context [write_loop ?a ?b ?c ?d ?e ?f ?g] =>
    pose proof (loop_fs b c d e f g o []) as Hf;
    destruct (write_loop a b c d e f g) as [r w'] end.
  cbn [snd] in Hf.
  rewrite fds_create_file, fs_create_file, fs_log_calls in Hf.
  rewrite insert_insert_eq in Hf.
  specialize (Hf (lookup_insert_eq _ _ _) (lookup_insert_eq _ _ _)).
  destruct r; cbn [finish snd]; assumption.
Qed.

Lemma zm_fs_before_open fuel o u m w :
  first_failure env u m <> None \/ (exists e, env_open env o = OpenFail e) ->
  w_fs (snd (zm_geniso EINVAL env fuel (Some o) (Some u) (Some m) w)) =
    w_fs w /\
  w_fds (snd (zm_geniso EINVAL env fuel (Some o) (Some u) (Some m) w)) =
    w_fds w.
Proof.
  intros H. destruct (first_failure env u m) as [s|] eqn:Hs.
  { rewrite (zm_geniso_setup_fails _ _ _ _ _ _ Hs). cbn [snd].
    now rewrite fs_log_calls, fds_log_calls. }
  destruct H as [H|[e He]]; [congruence|].
  rewrite (zm_geniso_open_fails _ _ _ _ _ _ Hs He). cbv zeta. cbn [snd].
  now rewrite !fs_log_calls, !fds_log_calls.
Qed.

(** ** Where the loop stops *)

Lemma first_stop_succ fuel k :
  first_stop env (S fuel) k =
  if copies env k then first_stop env fuel (S k) else Some k.
Proof. unfold first_stop. cbn [seq List.find]. now destruct (copies env k). Qed.

Lemma first_stop_Some fuel k j :
  first_stop env fuel k = Some j <->
  (k <= j < k + fuel)%nat /\ copies env j = false /\
  (forall i, (k <= i < j)%nat -> copies env i = true).
Proof.
  revert k. induction fuel as [|fuel IH]; intros k.
  - split; [discriminate|]. intros [? _]. lia.
  - rewrite first_stop_succ. destruct (copies env k) eqn:Hc.
    + rewrite IH. split; intros (Hj & Hf & Hbefore).
      * split; [lia|]. split; [assumption|]. intros i Hi.
        destruct (decide (i = k)) as [->|]; [assumption|].
        apply Hbefore. lia.
      * assert (j <> k) by congruence.
        split; [lia|]. split; [assumption|]. intros i Hi.
        apply Hbefore. lia.
    + split.
      * intros [= <-]. split; [lia|]. split; [assumption|]. intros i Hi. lia.
      * intros (Hj & Hf & Hbefore).
        destruct (decide (j = k)) as [->|]; [reflexivity|].
        rewrite Hbefore in Hc by lia. discriminate.
Qed.

Lemma at_end_not_copies k : at_end env k = true -> copies env k = false.
Proof.
  unfold at_end, copies. intros H%Z.eqb_eq. rewrite H. reflexivity.
Qed.

Lemma drained_spec n :
  drained env n = true <->
  (forall i, (i < n)%nat -> copies env i = true) /\ at_end env n = true.
Proof.
  unfold drained. rewrite andb_true_iff, forallb_forall.
  split; intros [H1 H2]; (split; [|assumption]); intros i Hi.
  - apply H1. apply in_seq. lia.
  - apply H1. apply in_seq in Hi. lia.
Qed.

Lemma drained_first_stop n fuel :
  drained env n = true -> (n < fuel)%nat -> first_stop env fuel 0 = Some n.
Proof.
  intros [Hc He]%drained_spec Hn. apply first_stop_Some.
  split; [lia|]. split; [now apply at_end_not_copies|].
  intros i Hi. apply Hc. lia.
Qed.

Lemma first_stop_drained fuel j :
  first_stop env fuel 0 = Some j -> at_end env j = true ->
  drained env j = true /\ (j < fuel)%nat.
Proof.
  intros (Hj & _ & Hbefore)%first_stop_Some He. split; [|lia].
  apply drained_spec. split; [|assumption]. intros i Hi. apply Hbefore. lia.
Qed.

(** ** The bytes of the file *)

Lemma chunk_of_pos_length k :
  0 < chunk_of env k -> chunk_of env k = Z.of_nat (length (delivered env k)).
Proof.
  unfold chunk_of. destruct (env_burn_read env k); [lia|reflexivity].
Qed.

Lemma written_le k : 0 < chunk_of env k -> written env k <= chunk_of env k.
Proof.
  intros Hc. rewrite (chunk_of_pos_length _ Hc). unfold written, accepted.
  destruct (env_write env k); [lia|]. rewrite length_take. lia.
Qed.

Lemma copies_accepted k :
  copies env k = true -> accepted env k = delivered env k.
Proof.
  unfold copies. intros [Hc Hw]%andb_true_iff.
  apply Z.ltb_lt in Hc. apply Z.eqb_eq in Hw.
  rewrite (chunk_of_pos_length _ Hc) in Hw. revert Hw.
  unfold written, accepted. destruct (env_write env k); [lia|].
  rewrite length_take. intros Hw. apply take_ge. lia.
Qed.

Lemma loop_bytes_stream fuel k n :
  first_stop env fuel k = Some n -> at_end env n = true ->
  loop_bytes env fuel k = concat (map (delivered env) (seq k (n - k))).
Proof.
  revert k. induction fuel as [|fuel IH]; intros k; [discriminate|].
  rewrite first_stop_succ. cbn [loop_bytes].
  destruct (copies env k) eqn:Hc.
  - intros Hs He. rewrite (copies_chunk _ Hc), (copies_accepted _ Hc).
    pose proof (proj1 (first_stop_Some _ _ _) Hs) as [Hn _].
    replace (n - k)%nat with (S (n - S k)) by lia.
    cbn [seq map concat]. now rewrite (IH _ Hs He).
  - intros [= <-] He. unfold at_end in He. apply Z.eqb_eq in He.
    rewrite He, Nat.sub_diag. reflexivity.
Qed.

(** ** The calls of the loop *)

Lemma loop_calls_io xt fd fuel k :
  Forall (fun ev => is_io ev = true) (loop_calls env xt fd fuel k).
Proof.
  revert k. induction fuel as [|fuel IH]; intros k; cbn [loop_calls].
  - constructor.
  - constructor; [reflexivity|].
    destruct (0 <? chunk_of env k); [|constructor].
    constructor; [reflexivity|].
    destruct (copies env k); [apply IH|constructor].
Qed.

(** A failing read or write is the last call of the loop, and the loop
    has then stopped short of the end of the stream. *)
Lemma loop_calls_failure_last xt fd fuel k pre ev post :
  loop_calls env xt fd fuel k = pre ++ ev :: post ->
  io_failure ev = true ->
  post = [] /\ exists j, first_stop env fuel k = Some j /\ at_end env j = false.
Proof.
  revert k pre. induction fuel as [|fuel IH]; intros k pre; cbn [loop_calls].
  { destruct pre; discriminate. }
  rewrite first_stop_succ. unfold at_end.
  destruct pre as [|e1 pre]; cbn [app].
  - intros [= <- Hrest] Hf. cbn [read_call io_failure] in Hf.
    apply Z.ltb_lt in Hf.
    assert (Hp : (0 <? chunk_of env k) = false) by (apply Z.ltb_ge; lia).
    rewrite Hp in Hrest. split; [congruence|]. exists k.
    unfold copies. rewrite Hp. split; [reflexivity|]. apply Z.eqb_neq. lia.
  - intros [= <- Hrest] Hf.
    destruct (0 <? chunk_of env k) eqn:Hp; [|now destruct pre].
    apply Z.ltb_lt in Hp.
    destruct pre as [|e2 pre]; cbn [app] in Hrest.
    + injection Hrest as <- Hrest. cbn [write_call io_failure] in Hf.
      apply Z.ltb_lt in Hf.
      assert (Hc : copies env k = false).
      { unfold copies. apply andb_false_iff. right. apply Z.eqb_neq. lia. }
      rewrite Hc in *. split; [congruence|]. exists k.
      split; [reflexivity|]. apply Z.eqb_neq. lia.
    + injection Hrest as <- Hrest.
      destruct (copies env k); [|now destruct pre].
      exact (IH _ _ Hrest Hf).
Qed.

Lemma loop_calls_failure_exists xt fd fuel k j :
  first_stop env fuel k = Some j -> at_end env j = false ->
  Exists (fun ev => io_failure ev = true) (loop_calls env xt fd fuel k).
Proof.
  revert k. induction fuel as [|fuel IH]; intros k; [discriminate|].
  rewrite first_stop_succ. cbn [loop_calls].
  destruct (copies env k) eqn:Hc.
  - intros Hs He. rewrite (copies_chunk _ Hc).
    do 2 apply Exists_cons_tl. now apply IH.
  - intros [= <-] He. unfold at_end in He. apply Z.eqb_neq in He.
    destruct (0 <? chunk_of env k) eqn:Hp.
    + apply Exists_cons_tl, Exists_cons_hd. cbn [write_call io_failure].
      apply Z.ltb_lt in Hp. pose proof (written_le _ Hp).
      unfold copies in Hc. apply andb_false_iff in Hc.
      destruct Hc as [Hc|Hc]; [apply Z.ltb_ge in Hc; lia|].
      apply Z.eqb_neq in Hc. apply Z.ltb_lt. lia.
    + apply Exists_cons_hd. cbn [read_call io_failure].
      apply Z.ltb_ge in Hp. apply Z.ltb_lt. lia.
Qed.

(** ** Lists of calls *)

Lemma split_middle (P : event -> bool) (A L B pre post : list event) ev :
  Forall (fun e => P e = false) A -> Forall (fun e => P e = false) B ->
  A ++ L ++ B = pre ++ ev :: post -> P ev = true ->
  exists pre' post', L = pre' ++ ev :: post' /\ post = post' ++ B.
Proof.
  intros HA HB. revert pre. induction HA as [|a A Ha HA IH]; intros pre.
  - cbn [app]. revert pre. induction L as [|x L IHL]; intros pre Heq Hev.
    + cbn [app] in Heq. rewrite Forall_forall in HB.
      assert (Hin : ev ∈ B) by (rewrite Heq; set_solver).
      rewrite (HB _ Hin) in Hev. discriminate.
    + destruct pre as [|y pre]; cbn [app] in Heq.
      * injection Heq as -> <-. now exists [], L.
      * injection Heq as -> Heq. destruct (IHL _ Heq Hev) as (p & q & -> & ->).
        now exists (y :: p), q.
  - intros Heq Hev. destruct pre as [|y pre]; cbn [app] in Heq.
    + injection Heq as -> _. congruence.
    + injection Heq as -> Heq. now apply (IH pre).
Qed.

Lemma no_such_call (P : event -> bool) (l pre post : list event) ev :
  Forall (fun e => P e = false) l -> l = pre ++ ev :: post -> P ev = false.
Proof.
  intros Hl ->. rewrite Forall_forall in Hl. apply Hl. set_solver.
Qed.

Lemma setup_calls_no (P : event -> bool) u m :
  (forall ev, P ev = true -> is_io ev = true \/ is_open ev = true \/
                             is_close ev = true) ->
  Forall (fun e => P e = false) (setup_calls u m).
Proof.
  intros HP. unfold setup_calls.
  repeat (constructor;
          [match goal with |- P ?e = false =>
             destruct (P e) eqn:HPe; [|reflexivity];
             destruct (HP _ HPe) as [?|[?|?]]; discriminate end|]).
  constructor.
Qed.

Lemma release_calls_no (P : event -> bool) :
  (forall ev, P ev = true -> is_io ev = true \/ is_open ev = true \/
                             is_close ev = true) ->
  Forall (fun e => P e = false) release_calls.
Proof.
  intros HP. unfold release_calls.
  repeat (constructor;
          [match goal with |- P ?e = false =>
             destruct (P e) eqn:HPe; [|reflexivity];
             destruct (HP _ HPe) as [?|[?|?]]; discriminate end|]).
  constructor.
Qed.

Lemma failed_setup_calls_no (P : event -> bool) u m s :
  (forall ev, P ev = true -> is_io ev = true \/ is_open ev = true \/
                             is_close ev = true) ->
  Forall (fun e => P e = false) (failed_setup_calls u m s).
Proof.
  intros HP. unfold failed_setup_calls. apply Forall_app. split.
  - apply Forall_take. now apply setup_calls_no.
  - destruct s; cbn [cleanup_after];
      repeat (constructor;
          [match goal with |- P ?e = false =>
             destruct (P e) eqn:HPe; [|reflexivity];
             destruct (HP _ HPe) as [?|[?|?]]; discriminate end|]);
      constructor.
Qed.

(** ** [errno] *)

Lemma errno_log_call_pos ev w :
  0 < w_errno w -> 0 < w_errno (log_call env ev w).
Proof.
  intros H. unfold log_call. cbn [w_errno].
  destruct (env_errno env (length (w_trace w))); lia.
Qed.

Lemma errno_log_calls_pos evs w :
  0 < w_errno w -> 0 < w_errno (log_calls env evs w).
Proof.
  revert w. induction evs as [|ev evs IH]; intros w H; [assumption|].
  unfold log_calls in *. cbn [foldl]. apply IH. now apply errno_log_call_pos.
Qed.

Lemma errno_log_call_kept ev w :
  env_errno env (length (w_trace w)) = None ->
  w_errno (log_call env ev w) = w_errno w.
Proof. intros H. unfold log_call. cbn [w_errno]. now rewrite H. Qed.

(** ** Helpers shared by the properties *)

Lemma drained_unique n j :
  drained env n = true -> drained env j = true -> n = j.
Proof.
  intros [Hn En]%drained_spec [Hj Ej]%drained_spec.
  apply at_end_not_copies in En, Ej.
  destruct (lt_eq_lt_dec n j) as [[Hlt|Heq]|Hlt]; [|assumption|].
  - rewrite (Hj _ Hlt) in En. discriminate.
  - rewrite (Hn _ Hlt) in Ej. discriminate.
Qed.

Lemma failure_code_nonzero s : failure_code s <> 0.
Proof. destruct s; discriminate. Qed.

(** A call returns 0 only along the one path on which nothing fails. *)
Lemma zm_zero_iff fuel o u m w :
  fst (zm_geniso EINVAL env fuel (Some o) (Some u) (Some m) w) = Returned 0 <->
  first_failure env u m = None /\ (exists fd, env_open env o = OpenOk fd) /\
  exists n, (n < fuel)%nat /\ drained env n = true.
Proof.
  rewrite zm_result. destruct (first_failure env u m) as [s|].
  { split; [|intros [? _]; discriminate].
    intros [= H]. now apply failure_code_nonzero in H. }
  destruct (env_open env o) as [e|fd].
  { split; [|intros (_ & [fd ?] & _); discriminate].
    set (w' := log_calls env release_calls _). intros H. exfalso.
    assert (Hp : 0 < w_errno w').
    { apply errno_log_calls_pos. rewrite errno_store_errno. lia. }
    assert (Hz : w_errno w' = 0) by congruence.
    lia. }
  destruct (first_stop env fuel 0) as [j|] eqn:Hj.
  - destruct (at_end env j) eqn:Hend.
    + destruct (first_stop_drained _ _ Hj Hend) as [Hd Hlt].
      split; [|reflexivity]. intros _. split; [reflexivity|].
      split; [now exists fd|]. now exists j.
    + split; [discriminate|]. intros (_ & _ & n & Hn & Hd).
      rewrite (drained_first_stop _ _ Hd Hn) in Hj. injection Hj as ->.
      apply drained_spec in Hd. destruct Hd as [_ Hd]. congruence.
  - split; [discriminate|]. intros (_ & _ & n & Hn & Hd).
    rewrite (drained_first_stop _ _ Hd Hn) in Hj. discriminate.
Qed.

(** After a call that returns 0 the output file holds the stream. *)
Lemma zm_zero_file fuel o u m w n :
  fst (zm_geniso EINVAL env fuel (Some o) (Some u) (Some m) w)
    = Returned 0 ->
  drained env n = true ->
  w_fs (snd (zm_geniso EINVAL env fuel (Some o) (Some u) (Some m) w))
    !! o = Some (stream env n).
Proof.
  intros H0 Hd.
  destruct (proj1 (zm_zero_iff _ _ _ _ _) H0)
    as (Hs & [fd Ho] & j & Hj & Hdj).
  rewrite (drained_unique _ _ Hd Hdj).
  rewrite (zm_fs_open_ok _ _ _ _ _ _ Hs Ho), lookup_insert_eq.
  f_equal. pose proof (drained_first_stop _ _ Hdj Hj) as Hstop.
  apply drained_spec in Hdj. destruct Hdj as [_ Hend].
  rewrite (loop_bytes_stream _ _ _ Hstop Hend), Nat.sub_0_r. reflexivity.
Qed.

(** The one call that creates the burn source, and what precedes it. *)
Lemma burn_source_call fuel o u m w image opts :
  In (Call_iso_image_create_burn_source image opts)
     (zm_calls EINVAL env fuel (Some o) (Some u) (Some m) w) ->
  image = cidata_image u m /\ opts = cidata_opts /\
  exists rest,
    zm_calls EINVAL env fuel (Some o) (Some u) (Some m) w =
    setup_calls u m ++ rest.
Proof.
  rewrite zm_calls_eq.
  assert (Hin : forall l,
    Forall (fun ev => is_io ev = true \/ is_open ev = true \/
                      is_close ev = true \/ In ev release_calls) l ->
    ~ In (Call_iso_image_create_burn_source image opts) l).
  { intros l Hl Hin. rewrite Forall_forall in Hl.
    apply list_elem_of_In in Hin.
    destruct (Hl _ Hin) as [?|[?|[?|Hr]]]; try discriminate.
    cbn in Hr. intuition discriminate. }
  assert (Hsetup : In (Call_iso_image_create_burn_source image opts)
                     (setup_calls u m) ->
                   image = cidata_image u m /\ opts = cidata_opts).
  { cbn. intuition (try discriminate).
    all: match goal with H : Call_iso_image_create_burn_source _ _ = _ |- _ =>
           now injection H end. }
  destruct (first_failure env u m) as [s|].
  - unfold failed_setup_calls.
    destruct s; cbn [calls_before cleanup_after]; intros H.
    all: try (exfalso; cbn in H; intuition discriminate).
    apply in_app_or in H. destruct H as [H|H];
      [|exfalso; cbn in H; intuition discriminate].
    destruct (Hsetup H) as [-> ->]. split; [reflexivity|].
    split; [reflexivity|]. eexists. reflexivity.
  - intros H. apply in_app_or in H. destruct H as [H|H].
    + destruct (Hsetup H) as [-> ->]. split; [reflexivity|].
      split; [reflexivity|]. eexists. reflexivity.
    + exfalso. revert H. apply Hin.
      destruct (env_open env o) as [e|fd].
      * constructor; [right; left; reflexivity|].
        apply Forall_forall. intros ev Hev. right. right. right.
        now apply list_elem_of_In.
      * constructor; [right; left; reflexivity|].
        apply Forall_app. split.
        { eapply Forall_impl; [apply loop_calls_io|]. intros ev Hev. now left. }
        destruct (first_stop env fuel 0); [|constructor].
        constructor; [right; right; left; reflexivity|].
        apply Forall_forall. intros ev Hev. right. right. right.
        now apply list_elem_of_In.
Qed.

Lemma zm_zero_reaches_encoder fuel o u m w :
  fst (zm_geniso EINVAL env fuel (Some o) (Some u) (Some m) w) = Returned 0 ->
  In (Call_iso_image_create_burn_source (cidata_image u m) cidata_opts)
     (zm_calls EINVAL env fuel (Some o) (Some u) (Some m) w).
Proof.
  intros (Hs & _ & _)%zm_zero_iff. rewrite zm_calls_eq, Hs.
  apply in_or_app. left. cbn. tauto.
Qed.

(** ** The properties *)

(** C1.  A call with non-null arguments returns 0 exactly when the image is
    fully written: it returns 0 if and only if the set-up succeeds, the
    output file is opened and the source is drained (every chunk it delivers
    is written in full, up to the read that returns 0); the output file then
    holds, in order, the bytes of all those chunks.  In particular no path
    on which something fails returns 0. *)
Theorem zm_geniso_returns_zero_iff_image_written fuel o u m w :
  (fst (zm_geniso EINVAL env fuel (Some o) (Some u) (Some m) w) = Returned 0 <->
     first_failure env u m = None /\
     (exists fd, env_open env o = OpenOk fd) /\
     exists n, (n < fuel)%nat /\ drained env n = true) /\
  (forall n,
     fst (zm_geniso EINVAL env fuel (Some o) (Some u) (Some m) w)
       = Returned 0 ->
     drained env n = true ->
     w_fs (snd (zm_geniso EINVAL env fuel (Some o) (Some u) (Some m) w))
       !! o = Some (stream env n)).
Proof.
  split; [apply zm_zero_iff|]. intros n. apply zm_zero_file.
Qed.

(** X12.  Whenever the function calls [iso_image_create_burn_source], the
    image object it passes has the volume identifier "cidata" and its root
    directory holds exactly two nodes, "user-data" for the [user_data] path
    and "meta-data" for the [meta_data] path, in this order; and a call
    that returns 0 has made this call.  (What the encoder makes of the
    image, the bytes it delivers, is its own: see [Env].) *)
Theorem zm_geniso_image_is_cidata fuel o u m w :
  (forall image opts,
     In (Call_iso_image_create_burn_source image opts)
        (zm_calls EINVAL env fuel (Some o) (Some u) (Some m) w) ->
     volume_id image = "cidata" /\
     root_children image =
       [{| node_name := "user-data"; node_path := u |};
        {| node_name := "meta-data"; node_path := m |}]) /\
  (fst (zm_geniso EINVAL env fuel (Some o) (Some u) (Some m) w) = Returned 0 ->
   exists image opts,
     In (Call_iso_image_create_burn_source image opts)
        (zm_calls EINVAL env fuel (Some o) (Some u) (Some m) w)).
Proof.
  split.
  - intros image opts H.
    destruct (burn_source_call _ _ _ _ _ _ _ H) as (-> & _).
    split; reflexivity.
  - intros H. eexists _, _. now apply zm_zero_reaches_encoder.
Qed.

(** C3 (amended).  When one of the three arguments is a null pointer the
    function returns EINVAL and does nothing else: the world is as it was. *)
Theorem zm_geniso_null_argument fuel o u m w :
  o = None \/ u = None \/ m = None ->
  zm_geniso EINVAL env fuel o u m w = (Returned (Z.pos EINVAL), w).
Proof. apply zm_geniso_null. Qed.

(** C4 (amended).  A set-up that stops at library initialisation, image
    creation, the root directory, the creation of the write options or the
    creation of the burn source returns 126; one that stops at adding either
    file node returns 125; and once the set-up is through and the output
    file is open, 125 is returned exactly when a read of the source fails
    or a write takes fewer bytes than requested. *)
Theorem zm_geniso_failure_codes fuel o u m w :
  (forall s, first_failure env u m = Some s ->
     fst (zm_geniso EINVAL env fuel (Some o) (Some u) (Some m) w) =
       Returned match s with
                | StepAddUserData | StepAddMetaData => 125
                | _ => 126
                end) /\
  (forall fd, first_failure env u m = None -> env_open env o = OpenOk fd ->
     (fst (zm_geniso EINVAL env fuel (Some o) (Some u) (Some m) w)
        = Returned 125 <->
      Exists (fun ev => io_failure ev = true)
        (zm_calls EINVAL env fuel (Some o) (Some u) (Some m) w))).
Proof.
  split.
  - intros s Hs. rewrite zm_result, Hs. now destruct s.
  - intros fd Hs Ho. rewrite zm_result, zm_calls_eq, Hs, Ho.
    assert (Hquiet : forall ev, io_failure ev = true ->
              is_io ev = true \/ is_open ev = true \/ is_close ev = true).
    { intros []; cbn; auto; discriminate. }
    rewrite Exists_app, Exists_cons, Exists_app.
    destruct (first_stop env fuel 0) as [j|] eqn:Hj.
    + destruct (at_end env j) eqn:Hend.
      * split; [discriminate|]. intros [H|[H|[H|H]]]; exfalso.
        -- apply Exists_exists in H. destruct H as (ev & Hin & Hev).
           pose proof (setup_calls_no io_failure u m Hquiet) as Hf.
           rewrite Forall_forall in Hf. rewrite (Hf _ Hin) in Hev.
           discriminate.
        -- discriminate.
        -- apply Exists_exists in H. destruct H as (ev & Hin & Hev).
           apply list_elem_of_In, in_split in Hin.
           destruct Hin as (pre & post & Heq).
           destruct (loop_calls_failure_last _ _ _ _ _ _ _ Heq Hev)
             as (_ & j' & Hj' & Hend').
           congruence.
        -- apply Exists_cons in H. destruct H as [H|H]; [discriminate|].
           apply Exists_exists in H. destruct H as (ev & Hin & Hev).
           pose proof (release_calls_no io_failure Hquiet) as Hf.
           rewrite Forall_forall in Hf. rewrite (Hf _ Hin) in Hev.
           discriminate.
      * split; [|reflexivity]. intros _. right. right. left.
        now apply (loop_calls_failure_exists _ _ _ _ j).
    + split; [discriminate|]. intros [H|[H|[H|H]]]; exfalso.
      * apply Exists_exists in H. destruct H as (ev & Hin & Hev).
        pose proof (setup_calls_no io_failure u m Hquiet) as Hf.
        rewrite Forall_forall in Hf. rewrite (Hf _ Hin) in Hev.
        discriminate.
      * discriminate.
      * apply Exists_exists in H. destruct H as (ev & Hin & Hev).
        apply list_elem_of_In, in_split in Hin.
        destruct Hin as (pre & post & Heq).
        destruct (loop_calls_failure_last _ _ _ _ _ _ _ Heq Hev)
          as (_ & j' & Hj' & _).
        congruence.
      * now apply Exists_nil in H.
Qed.

(** C6.  The write options handed to the encoder were created with
    profile 2, which selects ISO level 2, and have the Rock Ridge and the
    Joliet switches on: [iso_write_opts_new(&opts, 2)],
    [iso_write_opts_set_rockridge(opts, 1)] and
    [iso_write_opts_set_joliet(opts, 1)] were called before. *)
Theorem zm_geniso_write_options fuel o u m w image opts :
  In (Call_iso_image_create_burn_source image opts)
     (zm_calls EINVAL env fuel (Some o) (Some u) (Some m) w) ->
  iso_level opts = Some 2 /\
  wo_rockridge opts = true /\ wo_joliet opts = true /\
  exists before after,
    zm_calls EINVAL env fuel (Some o) (Some u) (Some m) w =
      before ++ Call_iso_image_create_burn_source image opts :: after /\
    In (Call_iso_write_opts_new 2) before /\
    In (Call_iso_write_opts_set_rockridge 1) before /\
    In (Call_iso_write_opts_set_joliet 1) before.
Proof.
  intros H.
  destruct (burn_source_call _ _ _ _ _ _ _ H) as (-> & -> & rest & ->).
  repeat (split; [reflexivity|]).
  exists (take 10 (setup_calls u m)), rest.
  split; [reflexivity|]. cbn. tauto.
Qed.

(** C7.  A read of the source that fails, or a write that takes fewer bytes
    than requested, is followed by no read and no write, and the function
    returns 125. *)
Theorem zm_geniso_stops_at_first_io_failure fuel o u m w pre ev post :
  zm_calls EINVAL env fuel (Some o) (Some u) (Some m) w = pre ++ ev :: post ->
  io_failure ev = true ->
  Forall (fun e => is_io e = false) post /\
  fst (zm_geniso EINVAL env fuel (Some o) (Some u) (Some m) w) = Returned 125.
Proof.
  rewrite zm_calls_eq, zm_result. intros Heq Hev.
  assert (Hquiet : forall ev, io_failure ev = true ->
            is_io ev = true \/ is_open ev = true \/ is_close ev = true).
  { intros []; cbn; auto; discriminate. }
  destruct (first_failure env u m) as [s|].
  { rewrite (no_such_call io_failure _ _ _ _
               (failed_setup_calls_no _ u m s Hquiet) Heq) in Hev.
    discriminate. }
  destruct (env_open env o) as [e|fd].
  { assert (Hf : Forall (fun e => io_failure e = false)
                   (setup_calls u m ++ open_call o (-1) :: release_calls)).
    { apply Forall_app. split; [now apply setup_calls_no|].
      constructor; [reflexivity|]. now apply release_calls_no. }
    rewrite (no_such_call io_failure _ _ _ _ Hf Heq) in Hev. discriminate. }
  change (open_call o (Z.of_N fd) :: ?l) with ([open_call o (Z.of_N fd)] ++ l)
    in Heq.
  rewrite app_assoc in Heq.
  apply (split_middle io_failure) in Heq; [|
    apply Forall_app; split; [now apply setup_calls_no|];
    constructor; [reflexivity|constructor] |
    destruct (first_stop env fuel 0); [|constructor];
    constructor; [reflexivity|]; now apply release_calls_no |
    assumption ].
  destruct Heq as (pre' & post' & Hloop & ->).
  destruct (loop_calls_failure_last _ _ _ _ _ _ _ Hloop Hev)
    as (-> & j & Hj & Hend).
  rewrite Hj, Hend. split; [|reflexivity]. cbn [app].
  constructor; [reflexivity|]. apply release_calls_no. auto.
Qed.

(** C9.  A call that returns before line 60, on a null argument or on a
    failure of the set-up, makes no [open]: the files and the descriptor
    table are as they were, so the file at the output path, if any, is
    unchanged. *)
Theorem zm_geniso_early_return_keeps_output fuel o u m w :
  (o = None \/ u = None \/ m = None) \/
  (exists o' u' m' s,
     o = Some o' /\ u = Some u' /\ m = Some m' /\
     first_failure env u' m' = Some s) ->
  Forall (fun ev => is_open ev = false) (zm_calls EINVAL env fuel o u m w) /\
  w_fs (snd (zm_geniso EINVAL env fuel o u m w)) = w_fs w /\
  w_fds (snd (zm_geniso EINVAL env fuel o u m w)) = w_fds w.
Proof.
  intros [Hnull|(o' & u' & m' & s & -> & -> & -> & Hs)].
  - unfold zm_calls. rewrite (zm_geniso_null _ _ _ _ _ Hnull). cbn [snd].
    rewrite drop_all. repeat split. constructor.
  - rewrite zm_calls_eq, Hs. split.
    + apply failed_setup_calls_no. intros []; cbn; auto; discriminate.
    + apply zm_fs_before_open. left. congruence.
Qed.

(** C10.  When the output descriptor was opened and the function returns,
    the calls of the function contain exactly one [close], it is
    [close(fd)] for the descriptor that was opened, it comes after every
    read and write, and the descriptor is no longer in the table. *)
Theorem zm_geniso_closes_descriptor_once fuel o u m w path flags mode fd code :
  In (Call_open path flags mode fd)
     (zm_calls EINVAL env fuel (Some o) (Some u) (Some m) w) ->
  0 <= fd ->
  fst (zm_geniso EINVAL env fuel (Some o) (Some u) (Some m) w)
    = Returned code ->
  exists pre post,
    zm_calls EINVAL env fuel (Some o) (Some u) (Some m) w =
      pre ++ Call_close fd :: post /\
    Forall (fun e => is_close e = false) pre /\
    Forall (fun e => is_close e = false /\ is_io e = false) post /\
    w_fds (snd (zm_geniso EINVAL env fuel (Some o) (Some u) (Some m) w))
      !! fd = None.
Proof.
  rewrite zm_calls_eq, zm_result. intros Hin Hfd Hret.
  assert (Hquiet : forall ev, is_open ev = true ->
            is_io ev = true \/ is_open ev = true \/ is_close ev = true)
    by auto.
  assert (Hclose : forall ev, is_close ev = true ->
            is_io ev = true \/ is_open ev = true \/ is_close ev = true)
    by auto.
  assert (Hno : forall l, Forall (fun e => is_open e = false) l ->
                          ~ In (Call_open path flags mode fd) l).
  { intros l Hl H. rewrite Forall_forall in Hl.
    apply list_elem_of_In in H. now specialize (Hl _ H). }
  destruct (first_failure env u m) as [s|] eqn:Hs.
  { exfalso. revert Hin. apply Hno. now apply failed_setup_calls_no. }
  apply in_app_or in Hin. destruct Hin as [Hin|Hin].
  { exfalso. revert Hin. apply Hno. now apply setup_calls_no. }
  destruct (env_open env o) as [e|fd0] eqn:Ho.
  { exfalso. destruct Hin as [Hin|Hin].
    - unfold open_call in Hin. injection Hin as _ _ _ <-. lia.
    - revert Hin. apply Hno. now apply release_calls_no. }
  destruct (first_stop env fuel 0) as [j|] eqn:Hj; [|discriminate].
  assert (Hloop_open : Forall (fun e => is_open e = false)
            (loop_calls env (negb (env_burn_has_read env)) (Z.of_N fd0)
               fuel 0)).
  { eapply Forall_impl; [apply loop_calls_io|]. now intros []. }
  assert (Hloop_close : Forall (fun e => is_close e = false)
            (loop_calls env (negb (env_burn_has_read env)) (Z.of_N fd0)
               fuel 0)).
  { eapply Forall_impl; [apply loop_calls_io|]. now intros []. }
  assert (fd = Z.of_N fd0) as ->.
  { destruct Hin as [Hin|Hin].
    - unfold open_call in Hin. now injection Hin.
    - exfalso. revert Hin. apply Hno. apply Forall_app. split; [assumption|].
      constructor; [reflexivity|]. now apply release_calls_no. }
  exists (setup_calls u m ++ open_call o (Z.of_N fd0) ::
          loop_calls env (negb (env_burn_has_read env)) (Z.of_N fd0) fuel 0),
         release_calls.
  split; [now rewrite <- app_assoc|]. split.
  { apply Forall_app. split; [now apply setup_calls_no|].
    constructor; [reflexivity|assumption]. }
  split.
  { unfold release_calls. repeat constructor. }
  rewrite (zm_geniso_open_ok _ _ _ _ _ _ Hs Ho).
  match goal with |- context [write_loop ?a ?b ?c ?d ?e ?f ?g] =>
    pose proof (loop_flow b c d e f g) as Hf;
    destruct (write_loop a b c d e f g) as [r w'] end.
  cbn [fst] in Hf. rewrite Hj in Hf. subst r. cbn [finish snd].
  rewrite fds_log_calls, fds_release_fd. apply lookup_delete_eq.
Qed.

(** Whenever the source stops delivering (end of stream, a failed read or
    an incomplete write at iteration [n]), enough fuel makes the function
    return. *)
Lemma zm_geniso_returns fuel o u m w n :
  copies env n = false -> (n < fuel)%nat ->
  exists code,
    fst (zm_geniso EINVAL env fuel (Some o) (Some u) (Some m) w)
      = Returned code.
Proof.
  intros Hn Hlt. rewrite zm_result.
  destruct (first_failure env u m); [eauto|].
  destruct (env_open env o); [eauto|].
  destruct (first_stop env fuel 0) as [j|] eqn:Hj; [eauto|].
  exfalso. unfold first_stop in Hj.
  assert (H : negb (copies env n) = false)
    by (apply (find_none _ _ Hj n); apply in_seq; lia).
  rewrite Hn in H. discriminate.
Qed.

(** When [open] fails and the three releasing calls leave [errno] alone,
    the code of [open] is returned; in any case the value is positive. *)
Lemma zm_geniso_open_failure fuel o u m w e :
  first_failure env u m = None -> env_open env o = OpenFail e ->
  (exists code,
     fst (zm_geniso EINVAL env fuel (Some o) (Some u) (Some m) w)
       = Returned code /\
     0 < code) /\
  ((forall i, (12 <= i < 15)%nat ->
      env_errno env (length (w_trace w) + i) = None) ->
   fst (zm_geniso EINVAL env fuel (Some o) (Some u) (Some m) w)
     = Returned (Z.pos e)).
Proof.
  intros Hs Ho. rewrite (zm_geniso_open_fails _ _ _ _ _ _ Hs Ho).
  cbv zeta. cbn [fst]. split.
  - eexists. split; [reflexivity|]. apply errno_log_calls_pos.
    rewrite errno_store_errno. lia.
  - intros Hkeep. f_equal. unfold release_calls, log_calls at 1. cbn [foldl].
    rewrite !errno_log_call_kept.
    + apply errno_store_errno.
    + rewrite trace_store_errno, trace_log_calls, length_app. apply Hkeep.
      cbn. lia.
    + rewrite trace_log_call, trace_store_errno, trace_log_calls, !length_app.
      rewrite <- Nat.add_assoc. apply Hkeep. cbn. lia.
    + rewrite !trace_log_call, trace_store_errno, trace_log_calls, !length_app.
      rewrite <- !Nat.add_assoc. apply Hkeep. cbn. lia.
Qed.

End Correctness.

(** * The properties at sample worlds *)

Local Abbreviation out := (Some "out.iso").
Local Abbreviation ud := (Some "user.yaml").
Local Abbreviation md := (Some "meta.yaml").

Ltac in_list := repeat (first [left; reflexivity | right]).

(** C1 at [env_ok]: the call returns 0 and the output file, which held an
    older content, holds the five bytes of the two chunks. *)
Lemma zm_geniso_returns_zero_iff_image_written_witness :
  fst (zm_geniso 22 env_ok 3 out ud md used_world) = Returned 0 /\
  w_fs (snd (zm_geniso 22 env_ok 3 out ud md used_world)) !! "out.iso" =
    Some [x43; x44; x30; x30; x31].
Proof.
  destruct (zm_geniso_returns_zero_iff_image_written 22 env_ok 3
              "out.iso" "user.yaml" "meta.yaml" used_world) as [[_ Hz] Hfile].
  assert (H0 : fst (zm_geniso 22 env_ok 3 out ud md used_world) = Returned 0).
  { apply Hz. split; [reflexivity|]. split; [now exists 3%N|].
    exists 2%nat. split; [lia|reflexivity]. }
  split; [exact H0|]. exact (Hfile 2%nat H0 eq_refl).
Defined.

(** X12 at [env_ok]. *)
Lemma zm_geniso_image_is_cidata_witness :
  In (Call_iso_image_create_burn_source
        (cidata_image "user.yaml" "meta.yaml") cidata_opts)
     (zm_calls 22 env_ok 3 out ud md used_world) /\
  volume_id (cidata_image "user.yaml" "meta.yaml") = "cidata" /\
  root_children (cidata_image "user.yaml" "meta.yaml") =
    [{| node_name := "user-data"; node_path := "user.yaml" |};
     {| node_name := "meta-data"; node_path := "meta.yaml" |}].
Proof.
  assert (Hin : In (Call_iso_image_create_burn_source
                      (cidata_image "user.yaml" "meta.yaml") cidata_opts)
                   (zm_calls 22 env_ok 3 out ud md used_world))
    by (vm_compute; in_list).
  split; [exact Hin|].
  exact (proj1 (zm_geniso_image_is_cidata 22 env_ok 3
                  "out.iso" "user.yaml" "meta.yaml" used_world) _ _ Hin).
Defined.

(** C3 as stated fails: with an empty [user_data] string the function does
    not return EINVAL (22 here) and makes seven library calls. *)
Lemma zm_geniso_empty_argument_not_refused :
  fst (zm_geniso 22 env_add_fails 3 out (Some "") md used_world)
    <> Returned 22 /\
  zm_calls 22 env_add_fails 3 out (Some "") md used_world =
    [Call_isoburn_initialize; Call_iso_init; Call_iso_image_new "cidata";
     Call_iso_image_set_volume_id "cidata"; Call_iso_image_get_root;
     Call_iso_tree_add_new_node "user-data" ""; Call_iso_image_unref].
Proof. split; [vm_compute; discriminate | vm_compute; reflexivity]. Qed.

(** C3 (amended) at a null [user_data]. *)
Lemma zm_geniso_null_argument_witness :
  (out = None \/ @None string = None \/ md = None) /\
  zm_geniso 22 env_ok 3 out None md used_world = (Returned 22, used_world).
Proof.
  assert (H : out = None \/ @None string = None \/ md = None)
    by (right; left; reflexivity).
  split; [exact H|].
  exact (zm_geniso_null_argument 22 env_ok 3 out None md used_world H).
Defined.

(** C4 as stated fails: when "user-data" cannot be added the function
    returns 125, not 126, and no read or write was made. *)
Lemma zm_geniso_add_node_failure_returns_125 :
  first_failure env_add_fails "user.yaml" "meta.yaml" = Some StepAddUserData /\
  fst (zm_geniso 22 env_add_fails 3 out ud md used_world) = Returned 125 /\
  fst (zm_geniso 22 env_add_fails 3 out ud md used_world) <> Returned 126 /\
  Forall (fun ev => is_io ev = false)
    (zm_calls 22 env_add_fails 3 out ud md used_world).
Proof.
  split; [reflexivity|]. split; [vm_compute; reflexivity|].
  split; [vm_compute; discriminate|]. vm_compute. repeat constructor.
Qed.

(** C4 (amended) at [env_init_fails] and at [env_read_fails]. *)
Lemma zm_geniso_failure_codes_witness :
  fst (zm_geniso 22 env_init_fails 3 out ud md used_world) = Returned 126 /\
  fst (zm_geniso 22 env_read_fails 3 out ud md used_world) = Returned 125.
Proof.
  split.
  - exact (proj1 (zm_geniso_failure_codes 22 env_init_fails 3
                    "out.iso" "user.yaml" "meta.yaml" used_world)
                 StepIsoburnInitialize eq_refl).
  - apply (proj2 (zm_geniso_failure_codes 22 env_read_fails 3
                    "out.iso" "user.yaml" "meta.yaml" used_world)
                 3%N eq_refl eq_refl).
    apply Exists_exists. exists (Call_read true 2048 (-1)).
    split; [|reflexivity]. apply list_elem_of_In. vm_compute. in_list.
Defined.

(** C5.  [open] fails with code 2 and [burn_source_free], called before
    [errno] is read on line 65, leaves code 9: the function returns 9, not
    the code of the failed [open]. *)
Theorem zm_geniso_open_failure_returns_later_errno :
  env_open env_open_fails_errno_changes "out.iso" = OpenFail 2 /\
  fst (zm_geniso 22 env_open_fails_errno_changes 3 out ud md used_world) =
    Returned 9.
Proof. split; [reflexivity | vm_compute; reflexivity]. Qed.

(** C6 at [env_ok]. *)
Lemma zm_geniso_write_options_witness :
  In (Call_iso_image_create_burn_source
        (cidata_image "user.yaml" "meta.yaml") cidata_opts)
     (zm_calls 22 env_ok 3 out ud md used_world) /\
  iso_level cidata_opts = Some 2 /\
  wo_rockridge cidata_opts = true /\ wo_joliet cidata_opts = true.
Proof.
  assert (Hin : In (Call_iso_image_create_burn_source
                      (cidata_image "user.yaml" "meta.yaml") cidata_opts)
                   (zm_calls 22 env_ok 3 out ud md used_world))
    by (vm_compute; in_list).
  split; [exact Hin|].
  destruct (zm_geniso_write_options 22 env_ok 3
              "out.iso" "user.yaml" "meta.yaml" used_world _ _ Hin)
    as (Hl & Hr & Hj & _).
  exact (conj Hl (conj Hr Hj)).
Defined.

(** C7 at [env_read_fails]: the second read fails; [close] and the three
    releasing calls follow, and 125 is returned. *)
Lemma zm_geniso_stops_at_first_io_failure_witness :
  zm_calls 22 env_read_fails 3 out ud md used_world =
    (setup_calls "user.yaml" "meta.yaml" ++
     [open_call "out.iso" 3; Call_read true 2048 3; Call_write 3 3 3]) ++
    Call_read true 2048 (-1) :: Call_close 3 :: release_calls /\
  io_failure (Call_read true 2048 (-1)) = true /\
  Forall (fun e => is_io e = false) (Call_close 3 :: release_calls) /\
  fst (zm_geniso 22 env_read_fails 3 out ud md used_world) = Returned 125.
Proof.
  assert (Heq : zm_calls 22 env_read_fails 3 out ud md used_world =
    (setup_calls "user.yaml" "meta.yaml" ++
     [open_call "out.iso" 3; Call_read true 2048 3; Call_write 3 3 3]) ++
    Call_read true 2048 (-1) :: Call_close 3 :: release_calls)
    by (vm_compute; reflexivity).
  split; [exact Heq|]. split; [reflexivity|].
  exact (zm_geniso_stops_at_first_io_failure 22 env_read_fails 3
           "out.iso" "user.yaml" "meta.yaml" used_world _ _ _ Heq eq_refl).
Defined.

(** C9 at [env_init_fails]: the older file at the output path is kept. *)
Lemma zm_geniso_early_return_keeps_output_witness :
  first_failure env_init_fails "user.yaml" "meta.yaml" =
    Some StepIsoburnInitialize /\
  Forall (fun ev => is_open ev = false)
    (zm_calls 22 env_init_fails 3 out ud md used_world) /\
  w_fs (snd (zm_geniso 22 env_init_fails 3 out ud md used_world)) =
    w_fs used_world /\
  w_fds (snd (zm_geniso 22 env_init_fails 3 out ud md used_world)) =
    w_fds used_world.
Proof.
  split; [reflexivity|].
  apply (zm_geniso_early_return_keeps_output 22 env_init_fails 3
           out ud md used_world).
  right. exists "out.iso", "user.yaml", "meta.yaml", StepIsoburnInitialize.
  repeat split; reflexivity.
Defined.

(** C10 at [env_ok]. *)
Lemma zm_geniso_closes_descriptor_once_witness :
  In (open_call "out.iso" 3) (zm_calls 22 env_ok 3 out ud md used_world) /\
  0 <= 3 /\
  fst (zm_geniso 22 env_ok 3 out ud md used_world) = Returned 0 /\
  exists pre post,
    zm_calls 22 env_ok 3 out ud md used_world = pre ++ Call_close 3 :: post /\
    Forall (fun e => is_close e = false) pre /\
    Forall (fun e => is_close e = false /\ is_io e = false) post /\
    w_fds (snd (zm_geniso 22 env_ok 3 out ud md used_world)) !! 3 = None.
Proof.
  assert (Hin : In (open_call "out.iso" 3)
                   (zm_calls 22 env_ok 3 out ud md used_world))
    by (vm_compute; in_list).
  assert (Hret : fst (zm_geniso 22 env_ok 3 out ud md used_world) = Returned 0)
    by (vm_compute; reflexivity).
  split; [exact Hin|]. split; [lia|]. split; [exact Hret|].
  exact (zm_geniso_closes_descriptor_once 22 env_ok 3
           "out.iso" "user.yaml" "meta.yaml" used_world _ _ _ _ _
           Hin ltac:(lia) Hret).
Defined.

(** A sink that takes one byte of the second chunk: 125 is returned and
    the file holds the four bytes that were accepted. *)
Example zm_geniso_short_write :
  fst (zm_geniso 22 env_short_write 3 out ud md used_world) = Returned 125 /\
  w_fs (snd (zm_geniso 22 env_short_write 3 out ud md used_world))
    !! "out.iso" = Some [x43; x44; x30; x30] /\
  drop 12 (zm_calls 22 env_short_write 3 out ud md used_world) =
    [Call_read true 2048 3; Call_write 3 3 3;
     Call_read true 2048 2; Call_write 3 2 1;
     Call_close 3; Call_burn_source_free; Call_iso_write_opts_free;
     Call_iso_image_unref].
Proof. repeat split; vm_compute; reflexivity. Qed.

(** A source that never reaches its end keeps the loop running. *)
Example zm_geniso_endless_source :
  forall fuel,
    fst (zm_geniso 22 env_endless fuel out ud md used_world) = OutOfFuel.
Proof.
  intros fuel. rewrite zm_result.
  change (first_failure env_endless "user.yaml" "meta.yaml") with
    (@None setup_step).
  change (env_open env_endless "out.iso") with (OpenOk 3).
  destruct (first_stop env_endless fuel 0) as [j|] eqn:Hj; [|reflexivity].
  apply first_stop_Some in Hj. destruct Hj as (_ & Hj & _). discriminate.
Qed.

(** The file a successful call leaves is the stream of its source, whatever
    the path held before and however the stream is cut into chunks: two
    successful calls whose sources deliver the same bytes leave the same
    file. *)
Corollary zm_geniso_file_is_the_stream
    EINVAL env1 env2 fuel1 fuel2 o u1 m1 u2 m2 w1 w2 n1 n2 :
  fst (zm_geniso EINVAL env1 fuel1 (Some o) (Some u1) (Some m1) w1)
    = Returned 0 ->
  fst (zm_geniso EINVAL env2 fuel2 (Some o) (Some u2) (Some m2) w2)
    = Returned 0 ->
  drained env1 n1 = true -> drained env2 n2 = true ->
  stream env1 n1 = stream env2 n2 ->
  w_fs (snd (zm_geniso EINVAL env1 fuel1 (Some o) (Some u1) (Some m1) w1))
    !! o =
  w_fs (snd (zm_geniso EINVAL env2 fuel2 (Some o) (Some u2) (Some m2) w2))
    !! o.
Proof.
  intros H1 H2 Hd1 Hd2 Heq.
  rewrite (zm_zero_file _ _ _ _ _ _ _ _ H1 Hd1).
  rewrite (zm_zero_file _ _ _ _ _ _ _ _ H2 Hd2).
  now rewrite Heq.
Qed.

(** * Further properties of [zm_geniso] *)

Section Further.

Variable EINVAL : positive.
Variable env : Env.

(** ** The file while it is written *)

Lemma accepted_prefix k : accepted env k `prefix_of` delivered env k.
Proof.
  unfold accepted. destruct (env_write env k).
  - apply prefix_nil.
  - apply prefix_take.
Qed.

Lemma loop_bytes_prefix fuel k :
  loop_bytes env fuel k `prefix_of`
  concat (map (delivered env) (seq k fuel)).
Proof.
  revert k. induction fuel as [|fuel IH]; intros k; [apply prefix_nil|].
  cbn [loop_bytes seq map concat].
  destruct (0 <? chunk_of env k); [|apply prefix_nil].
  destruct (copies env k) eqn:Hc.
  - rewrite (copies_accepted _ _ Hc). apply prefix_app, IH.
  - rewrite app_nil_r. etrans; [apply accepted_prefix|].
    now apply prefix_app_r.
Qed.

(** X2.  Once the output file is open it holds, at every moment and
    however the call ends, a prefix of the bytes that the source delivers:
    nothing else ever gets into the file. *)
Theorem zm_geniso_file_is_prefix_of_stream fuel o u m w fd :
  first_failure env u m = None -> env_open env o = OpenOk fd ->
  exists content,
    w_fs (snd (zm_geniso EINVAL env fuel (Some o) (Some u) (Some m) w)) !! o
      = Some content /\
    content `prefix_of` stream env fuel.
Proof.
  intros Hs Ho. exists (loop_bytes env fuel 0).
  rewrite (zm_fs_open_ok _ _ _ _ _ _ _ _ Hs Ho), lookup_insert_eq.
  split; [reflexivity|]. apply loop_bytes_prefix.
Qed.

(** X3.  When the first read of the source returns 0 or fails, the output
    file, which [open] has emptied, is left empty: an empty source gives 0
    and an empty file, a failing first read gives 125 and the content the
    file had before the call is lost. *)
Theorem zm_geniso_first_read_stops fuel o u m w fd :
  first_failure env u m = None -> env_open env o = OpenOk fd ->
  chunk_of env 0 <= 0 ->
  fst (zm_geniso EINVAL env (S fuel) (Some o) (Some u) (Some m) w) =
    Returned (if chunk_of env 0 =? 0 then 0 else 125) /\
  w_fs (snd (zm_geniso EINVAL env (S fuel) (Some o) (Some u) (Some m) w))
    !! o = Some [] /\
  Forall (fun ev => match ev with Call_write _ _ _ => False | _ => True end)
    (zm_calls EINVAL env (S fuel) (Some o) (Some u) (Some m) w).
Proof.
  intros Hs Ho Hc.
  assert (Hp : (0 <? chunk_of env 0) = false) by (apply Z.ltb_ge; lia).
  assert (Hcp : copies env 0 = false) by (unfold copies; now rewrite Hp).
  split; [|split].
  - rewrite zm_result, Hs, Ho, first_stop_succ, Hcp. reflexivity.
  - rewrite (zm_fs_open_ok _ _ _ _ _ _ _ _ Hs Ho), lookup_insert_eq.
    cbn [loop_bytes]. now rewrite Hp.
  - rewrite zm_calls_eq, Hs, Ho, first_stop_succ, Hcp. cbn [loop_calls].
    rewrite Hp. unfold setup_calls, open_call, read_call, release_calls.
    cbn [app]. repeat constructor.
Qed.


(** ** Termination *)

(** X4.  The function returns if and only if the set-up fails, or [open]
    fails, or some iteration of the loop does not go on (end of stream, a
    failed read or an incomplete write): with a source that always
    delivers and a sink that always takes everything it never returns. *)
Theorem zm_geniso_returns_iff o u m w :
  (exists fuel code,
     fst (zm_geniso EINVAL env fuel (Some o) (Some u) (Some m) w) =
       Returned code) <->
  first_failure env u m <> None \/
  (exists e, env_open env o = OpenFail e) \/
  (exists n, copies env n = false).
Proof.
  split.
  - intros (fuel & code & H). rewrite zm_result in H.
    destruct (first_failure env u m); [left; discriminate|].
    destruct (env_open env o) as [e|fd]; [right; left; eauto|].
    destruct (first_stop env fuel 0) as [j|] eqn:Hj; [|discriminate].
    apply first_stop_Some in Hj. right. right. exists j. tauto.
  - intros H.
    destruct (first_failure env u m) as [s|] eqn:Hs.
    { exists 0%nat, (failure_code s). now rewrite zm_result, Hs. }
    destruct (env_open env o) as [e|fd] eqn:Ho.
    { exists 0%nat. eexists. rewrite zm_result, Hs, Ho. reflexivity. }
    destruct H as [H|[[e He]|[n Hn]]]; [congruence|discriminate|].
    exists (S n). apply (zm_geniso_returns EINVAL env (S n) o u m w n Hn).
    lia.
Qed.

(** ** Failure of [open], and the values returned *)

(** X6.  When [open] fails nothing is read, written or closed: the burn
    source, the options and the image are released, in this order, the
    files and descriptors are as they were, and the value returned is
    positive; it is the code that [open] left in [errno] provided the three
    releasing calls (the 13th to 15th external calls) leave [errno] alone. *)
Theorem zm_geniso_open_failure_path fuel o u m w e :
  first_failure env u m = None -> env_open env o = OpenFail e ->
  zm_calls EINVAL env fuel (Some o) (Some u) (Some m) w =
    setup_calls u m ++
    [open_call o (-1); Call_burn_source_free; Call_iso_write_opts_free;
     Call_iso_image_unref] /\
  w_fs (snd (zm_geniso EINVAL env fuel (Some o) (Some u) (Some m) w)) =
    w_fs w /\
  w_fds (snd (zm_geniso EINVAL env fuel (Some o) (Some u) (Some m) w)) =
    w_fds w /\
  (exists code,
     fst (zm_geniso EINVAL env fuel (Some o) (Some u) (Some m) w) =
       Returned code /\
     0 < code) /\
  ((forall i, (12 <= i < 15)%nat ->
      env_errno env (length (w_trace w) + i) = None) ->
   fst (zm_geniso EINVAL env fuel (Some o) (Some u) (Some m) w) =
     Returned (Z.pos e)).
Proof.
  intros Hs Ho. split; [|split; [|split]].
  - now rewrite zm_calls_eq, Hs, Ho.
  - apply zm_fs_before_open. right. eauto.
  - apply zm_fs_before_open. right. eauto.
  - apply (zm_geniso_open_failure EINVAL env fuel o u m w e Hs Ho).
Qed.


(** ** The reads and writes of the loop *)

Lemma chunk_of_le k : chunk_of env k <= Z.of_nat buffer_size.
Proof.
  unfold chunk_of, delivered. destruct (env_burn_read env k); [lia|].
  rewrite length_take. lia.
Qed.

Lemma written_ge k : -1 <= written env k.
Proof. unfold written. destruct (env_write env k); lia. Qed.

Lemma loop_calls_shape xt fd fuel k :
  Forall (fun ev => match ev with
                    | Call_read xt' size chunk =>
                        xt' = xt /\ size = 2048 /\ chunk <= 2048
                    | Call_write fd' count written =>
                        fd' = fd /\ 0 < count <= 2048 /\
                        -1 <= written <= count
                    | _ => False
                    end)
    (loop_calls env xt fd fuel k).
Proof.
  revert k. induction fuel as [|fuel IH]; intros k; cbn [loop_calls].
  - constructor.
  - pose proof (chunk_of_le k) as Hle.
    change (Z.of_nat buffer_size) with 2048 in Hle.
    constructor; [unfold read_call; auto|].
    destruct (0 <? chunk_of env k) eqn:Hp; [|constructor].
    apply Z.ltb_lt in Hp.
    constructor.
    { unfold write_call. pose proof (written_le _ _ Hp).
      pose proof (written_ge k). repeat split; lia. }
    destruct (copies env k); [apply IH|constructor].
Qed.

(** X7.  Every read asks for exactly 2048 bytes, the size of the buffer,
    through one and the same entry point of the source, and gets at most
    as many; every write is on the descriptor that [open] returned, for
    between 1 and 2048 bytes; [close] is on that descriptor; and [open] is
    on the output path, with the flags of line 60 and mode 0644. *)
Theorem zm_geniso_io_calls fuel o u m w ev :
  In ev (zm_calls EINVAL env fuel (Some o) (Some u) (Some m) w) ->
  match ev with
  | Call_read xt size chunk =>
      xt = negb (env_burn_has_read env) /\ size = 2048 /\ chunk <= 2048
  | Call_write fd count written =>
      env_open env o = OpenOk (Z.to_N fd) /\ 0 <= fd /\
      0 < count <= 2048 /\ -1 <= written <= count
  | Call_close fd => env_open env o = OpenOk (Z.to_N fd) /\ 0 <= fd
  | Call_open path flags mode _ =>
      path = o /\ flags = [O_CREAT; O_TRUNC; O_WRONLY] /\ mode = 420
  | _ => True
  end.
Proof.
  rewrite zm_calls_eq.
  assert (Hsetup : forall l, In ev l ->
            Forall (fun e => is_io e = false /\ is_open e = false /\
                             is_close e = false) l ->
            match ev with
            | Call_read _ _ _ | Call_write _ _ _ | Call_close _
            | Call_open _ _ _ _ => False
            | _ => True
            end).
  { intros l Hin Hl. rewrite Forall_forall in Hl.
    apply list_elem_of_In in Hin. specialize (Hl _ Hin).
    destruct ev; cbn in Hl; intuition discriminate. }
  assert (Hquiet : forall l, In ev l ->
            Forall (fun e => is_io e = false /\ is_open e = false /\
                             is_close e = false) l ->
            match ev with
            | Call_read xt size chunk =>
                xt = negb (env_burn_has_read env) /\ size = 2048 /\
                chunk <= 2048
            | Call_write fd count written =>
                env_open env o = OpenOk (Z.to_N fd) /\ 0 <= fd /\
                0 < count <= 2048 /\ -1 <= written <= count
            | Call_close fd => env_open env o = OpenOk (Z.to_N fd) /\ 0 <= fd
            | Call_open path flags mode _ =>
                path = o /\ flags = [O_CREAT; O_TRUNC; O_WRONLY] /\ mode = 420
            | _ => True
            end).
  { intros l Hin Hl. specialize (Hsetup l Hin Hl). now destruct ev. }
  assert (Hs_quiet : Forall (fun e => is_io e = false /\ is_open e = false /\
                                      is_close e = false) (setup_calls u m))
    by (unfold setup_calls; repeat constructor).
  assert (Hr_quiet : Forall (fun e => is_io e = false /\ is_open e = false /\
                                      is_close e = false) release_calls)
    by (unfold release_calls; repeat constructor).
  destruct (first_failure env u m) as [s|].
  { intros Hin. apply (Hquiet _ Hin). unfold failed_setup_calls.
    apply Forall_app. split; [now apply Forall_take|].
    destruct s; repeat constructor. }
  intros Hin. apply in_app_or in Hin. destruct Hin as [Hin|Hin].
  { now apply (Hquiet _ Hin). }
  destruct (env_open env o) as [e|fd] eqn:Ho.
  { destruct Hin as [<-|Hin]; [now cbn|]. now apply (Hquiet _ Hin). }
  destruct Hin as [<-|Hin]; [now cbn|].
  apply in_app_or in Hin. destruct Hin as [Hin|Hin].
  - pose proof (loop_calls_shape (negb (env_burn_has_read env)) (Z.of_N fd)
                  fuel 0) as Hl.
    rewrite Forall_forall in Hl. apply list_elem_of_In in Hin.
    specialize (Hl _ Hin). destruct ev; try contradiction.
    + exact Hl.
    + destruct Hl as (-> & Hc & Hw). rewrite N2Z.id.
      repeat split; lia.
  - destruct (first_stop env fuel 0); [|contradiction].
    destruct Hin as [<-|Hin].
    + rewrite N2Z.id. split; [reflexivity|lia].
    + now apply (Hquiet _ Hin).
Qed.

Lemma split_middle_pre (P : event -> bool) (A L B pre post : list event) ev :
  Forall (fun e => P e = false) A -> Forall (fun e => P e = false) B ->
  A ++ L ++ B = pre ++ ev :: post -> P ev = true ->
  exists pre' post',
    L = pre' ++ ev :: post' /\ pre = A ++ pre' /\ post = post' ++ B.
Proof.
  intros HA HB. revert pre. induction HA as [|a A Ha HA IH]; intros pre.
  - cbn [app]. revert pre. induction L as [|x L IHL]; intros pre Heq Hev.
    + cbn [app] in Heq. rewrite Forall_forall in HB.
      assert (Hin : ev ∈ B) by (rewrite Heq; set_solver).
      rewrite (HB _ Hin) in Hev. discriminate.
    + destruct pre as [|y pre]; cbn [app] in Heq.
      * injection Heq as -> <-. now exists [], L.
      * injection Heq as -> Heq.
        destruct (IHL _ Heq Hev) as (p & q & -> & -> & ->).
        now exists (y :: p), q.
  - intros Heq Hev. destruct pre as [|y pre]; cbn [app] in Heq.
    + injection Heq as -> _. congruence.
    + injection Heq as -> Heq.
      destruct (IH pre Heq Hev) as (p & q & -> & -> & ->).
      now exists p, q.
Qed.

Lemma loop_calls_write_after_read xt fd fuel k pre fd' count written post :
  loop_calls env xt fd fuel k = pre ++ Call_write fd' count written :: post ->
  exists pre', pre = pre' ++ [Call_read xt 2048 count].
Proof.
  revert k pre. induction fuel as [|fuel IH]; intros k pre; cbn [loop_calls].
  { destruct pre; discriminate. }
  destruct pre as [|e1 pre]; cbn [app]; [discriminate|].
  intros [= <- Hrest].
  destruct (0 <? chunk_of env k); [|now destruct pre].
  destruct pre as [|e2 pre]; cbn [app] in Hrest.
  - injection Hrest as _ <- _ _. now exists [].
  - injection Hrest as <- Hrest.
    destruct (copies env k); [|now destruct pre].
    destruct (IH _ _ Hrest) as [pre' ->].
    now exists (read_call env xt k :: write_call env fd k :: pre').
Qed.

(** X8.  Every write comes right after a read of the source and asks for
    exactly the number of bytes that this read returned. *)
Theorem zm_geniso_write_follows_read fuel o u m w pre fd count written post :
  zm_calls EINVAL env fuel (Some o) (Some u) (Some m) w =
    pre ++ Call_write fd count written :: post ->
  exists pre' xt, pre = pre' ++ [Call_read xt 2048 count].
Proof.
  rewrite zm_calls_eq. intros Heq.
  assert (Hquiet : forall ev, is_write ev = true ->
            is_io ev = true \/ is_open ev = true \/ is_close ev = true).
  { intros []; cbn; auto; discriminate. }
  destruct (first_failure env u m) as [s|].
  { pose proof (no_such_call is_write _ _ _ _
                  (failed_setup_calls_no _ u m s Hquiet) Heq).
    discriminate. }
  destruct (env_open env o) as [e|fd0].
  { assert (Hf : Forall (fun e => is_write e = false)
                   (setup_calls u m ++ open_call o (-1) :: release_calls)).
    { apply Forall_app. split; [now apply setup_calls_no|].
      constructor; [reflexivity|]. now apply release_calls_no. }
    pose proof (no_such_call is_write _ _ _ _ Hf Heq). discriminate. }
  change (open_call o (Z.of_N fd0) :: ?l)
    with ([open_call o (Z.of_N fd0)] ++ l) in Heq.
  rewrite app_assoc in Heq.
  apply (split_middle_pre is_write) in Heq; [|
    apply Forall_app; split; [now apply setup_calls_no|];
    constructor; [reflexivity|constructor] |
    destruct (first_stop env fuel 0); [|constructor];
    constructor; [reflexivity|]; now apply release_calls_no |
    reflexivity ].
  destruct Heq as (pre' & post' & Hloop & -> & _).
  destruct (loop_calls_write_after_read _ _ _ _ _ _ _ _ _ Hloop) as [p ->].
  eexists _, _. rewrite app_assoc. reflexivity.
Qed.

(** ** The buffer *)

Lemma write_loop_any_buffer stack fuel k bs fd buf buf' w :
  write_loop (with_stack env stack) fuel k bs fd buf w =
  write_loop env fuel k bs fd buf' w.
Proof.
  revert k buf buf' w. induction fuel as [|fuel IH]; intros k buf buf' w;
    [reflexivity|].
  rewrite !write_loop_step. cbv zeta.
  change (chunk_of (with_stack env stack) k) with (chunk_of env k).
  change (copies (with_stack env stack) k) with (copies env k).
  change (delivered (with_stack env stack) k) with (delivered env k).
  destruct (chunk_of env k <? 0); [reflexivity|].
  destruct (chunk_of env k =? 0); [reflexivity|].
  destruct (copies env k); [|reflexivity].
  rewrite (IH _ _ (delivered env k ++ drop (length (delivered env k)) buf')).
  reflexivity.
Qed.

Lemma log_calls_with_stack stack evs w :
  log_calls (with_stack env stack) evs w = log_calls env evs w.
Proof. reflexivity. Qed.

Lemma finish_with_stack stack fd r :
  finish (with_stack env stack) fd r = finish env fd r.
Proof. destruct r as [[r| |] w]; reflexivity. Qed.

(** X9.  What the stack holds where [buffer] is allocated has no effect:
    the function returns the same value and leaves the same world, files
    included, whatever the 2048 bytes of the uninitialised buffer are.  No
    byte of the buffer that the source did not store reaches the file. *)
Theorem zm_geniso_ignores_buffer_garbage stack fuel (o u m : option string) w :
  zm_geniso EINVAL (with_stack env stack) fuel o u m w =
  zm_geniso EINVAL env fuel o u m w.
Proof.
  destruct o as [o|], u as [u|], m as [m|];
    try (rewrite !zm_geniso_null by auto; reflexivity).
  destruct (first_failure env u m) as [s|] eqn:Hs.
  { rewrite (zm_geniso_setup_fails EINVAL env _ _ _ _ _ _ Hs).
    rewrite (zm_geniso_setup_fails EINVAL (with_stack env stack)
               _ _ _ _ _ _ Hs).
    now rewrite log_calls_with_stack. }
  destruct (env_open env o) as [e|fd] eqn:Ho.
  { rewrite (zm_geniso_open_fails EINVAL env _ _ _ _ _ _ Hs Ho).
    rewrite (zm_geniso_open_fails EINVAL (with_stack env stack)
               _ _ _ _ _ _ Hs Ho).
    cbv zeta. now rewrite !log_calls_with_stack. }
  rewrite (zm_geniso_open_ok EINVAL env _ _ _ _ _ _ Hs Ho).
  rewrite (zm_geniso_open_ok EINVAL (with_stack env stack) _ _ _ _ _ _ Hs Ho).
  cbn [env_burn_has_read with_stack].
  rewrite (write_loop_any_buffer stack fuel 0 _ _ _ (fresh_buffer env)).
  now rewrite finish_with_stack, log_calls_with_stack.
Qed.

(** ** Release of what was acquired *)

Lemma loop_calls_no_release xt fd fuel k :
  Forall (fun e => is_release e = false) (loop_calls env xt fd fuel k).
Proof. eapply Forall_impl; [apply loop_calls_io|]. now intros []. Qed.

(** X10.  When the function returns, its calls end with one release for
    each of the burn source, the write options and the image that the
    set-up obtained, in this order (the reverse of their creation), and
    there is no other release: nothing is released twice, nothing obtained
    is left unreleased, and nothing is released that was not obtained. *)
Theorem zm_geniso_releases_what_it_acquired fuel o u m w code :
  fst (zm_geniso EINVAL env fuel (Some o) (Some u) (Some m) w) =
    Returned code ->
  exists pre,
    zm_calls EINVAL env fuel (Some o) (Some u) (Some m) w =
      pre ++ due_releases env u m /\
    Forall (fun e => is_release e = false) pre.
Proof.
  rewrite zm_result, zm_calls_eq. unfold due_releases, passes.
  assert (Hsetup : Forall (fun e => is_release e = false) (setup_calls u m))
    by (unfold setup_calls; repeat constructor).
  destruct (first_failure env u m) as [s|].
  { intros _. unfold failed_setup_calls.
    exists (take (calls_before s) (setup_calls u m)).
    split; [now destruct s|]. now apply Forall_take. }
  cbn [app].
  destruct (env_open env o) as [e|fd].
  { intros _. exists (setup_calls u m ++ [open_call o (-1)]).
    split; [now rewrite <- app_assoc|].
    apply Forall_app. split; [assumption|]. repeat constructor. }
  destruct (first_stop env fuel 0); [|discriminate].
  intros _.
  exists (setup_calls u m ++ open_call o (Z.of_N fd) ::
          loop_calls env (negb (env_burn_has_read env)) (Z.of_N fd) fuel 0 ++
          [Call_close (Z.of_N fd)]).
  split.
  - rewrite <- !app_assoc. cbn [app]. now rewrite <- app_assoc.
  - apply Forall_app. split; [assumption|].
    constructor; [reflexivity|]. apply Forall_app.
    split; [apply loop_calls_no_release|]. repeat constructor.
Qed.

End Further.

(** * The further properties at sample worlds *)

(** X2 at [env_short_write]: four of the five bytes are in the file. *)
Lemma zm_geniso_file_is_prefix_of_stream_witness :
  first_failure env_short_write "user.yaml" "meta.yaml" = None /\
  env_open env_short_write "out.iso" = OpenOk 3 /\
  exists content,
    w_fs (snd (zm_geniso 22 env_short_write 3 out ud md used_world))
      !! "out.iso" = Some content /\
    content `prefix_of` stream env_short_write 3.
Proof.
  split; [reflexivity|]. split; [reflexivity|].
  exact (zm_geniso_file_is_prefix_of_stream 22 env_short_write 3
           "out.iso" "user.yaml" "meta.yaml" used_world 3 eq_refl eq_refl).
Defined.

(** X3 at [env_empty_source]: 0 is returned and the older content of the
    output file is gone. *)
Lemma zm_geniso_first_read_stops_witness :
  chunk_of env_empty_source 0 <= 0 /\
  fst (zm_geniso 22 env_empty_source 1 out ud md used_world) = Returned 0 /\
  w_fs (snd (zm_geniso 22 env_empty_source 1 out ud md used_world))
    !! "out.iso" = Some [].
Proof.
  assert (Hc : chunk_of env_empty_source 0 <= 0) by (vm_compute; discriminate).
  split; [exact Hc|].
  destruct (zm_geniso_first_read_stops 22 env_empty_source 0
              "out.iso" "user.yaml" "meta.yaml" used_world 3
              eq_refl eq_refl Hc) as (Hr & Hf & _).
  split; [exact Hr|exact Hf].
Defined.

(** X6 at [env_open_fails]: 2, the code of [open], is returned and the
    older output file is kept. *)
Lemma zm_geniso_open_failure_path_witness :
  first_failure env_open_fails "user.yaml" "meta.yaml" = None /\
  env_open env_open_fails "out.iso" = OpenFail 2 /\
  fst (zm_geniso 22 env_open_fails 3 out ud md used_world) = Returned 2 /\
  w_fs (snd (zm_geniso 22 env_open_fails 3 out ud md used_world)) =
    w_fs used_world.
Proof.
  split; [reflexivity|]. split; [reflexivity|].
  destruct (zm_geniso_open_failure_path 22 env_open_fails 3
              "out.iso" "user.yaml" "meta.yaml" used_world 2
              eq_refl eq_refl) as (_ & Hfs & _ & _ & Hcode).
  split; [|exact Hfs]. apply Hcode. reflexivity.
Defined.

(** X7 at [env_ok], for its first write. *)
Lemma zm_geniso_io_calls_witness :
  In (Call_write 3 3 3) (zm_calls 22 env_ok 3 out ud md used_world) /\
  env_open env_ok "out.iso" = OpenOk (Z.to_N 3) /\ 0 <= 3 /\
  0 < 3 <= 2048 /\ -1 <= 3 <= 3.
Proof.
  assert (Hin : In (Call_write 3 3 3)
                   (zm_calls 22 env_ok 3 out ud md used_world))
    by (vm_compute; in_list).
  split; [exact Hin|].
  exact (zm_geniso_io_calls 22 env_ok 3 "out.iso" "user.yaml" "meta.yaml"
           used_world _ Hin).
Defined.

(** X8 at [env_ok], for its second write. *)
Lemma zm_geniso_write_follows_read_witness :
  zm_calls 22 env_ok 3 out ud md used_world =
    (setup_calls "user.yaml" "meta.yaml" ++
     [open_call "out.iso" 3; Call_read true 2048 3; Call_write 3 3 3;
      Call_read true 2048 2]) ++
    Call_write 3 2 2 ::
    Call_read true 2048 0 :: Call_close 3 :: release_calls /\
  exists pre' xt,
    setup_calls "user.yaml" "meta.yaml" ++
    [open_call "out.iso" 3; Call_read true 2048 3; Call_write 3 3 3;
     Call_read true 2048 2] = pre' ++ [Call_read xt 2048 2].
Proof.
  assert (Heq : zm_calls 22 env_ok 3 out ud md used_world =
    (setup_calls "user.yaml" "meta.yaml" ++
     [open_call "out.iso" 3; Call_read true 2048 3; Call_write 3 3 3;
      Call_read true 2048 2]) ++
    Call_write 3 2 2 ::
    Call_read true 2048 0 :: Call_close 3 :: release_calls)
    by (vm_compute; reflexivity).
  split; [exact Heq|].
  exact (zm_geniso_write_follows_read 22 env_ok 3
           "out.iso" "user.yaml" "meta.yaml" used_world _ _ _ _ _ Heq).
Defined.

(** X10 at [env_no_source]: the options and the image are released, and
    no burn source, since none was obtained. *)
Lemma zm_geniso_releases_what_it_acquired_witness :
  fst (zm_geniso 22 env_no_source 3 out ud md used_world) = Returned 126 /\
  exists pre,
    zm_calls 22 env_no_source 3 out ud md used_world =
      pre ++ [Call_iso_write_opts_free; Call_iso_image_unref] /\
    Forall (fun e => is_release e = false) pre.
Proof.
  assert (Hr : fst (zm_geniso 22 env_no_source 3 out ud md used_world) =
               Returned 126) by (vm_compute; reflexivity).
  split; [exact Hr|].
  exact (zm_geniso_releases_what_it_acquired 22 env_no_source 3
           "out.iso" "user.yaml" "meta.yaml" used_world 126 Hr).
Defined.

